(** * YouTube latest-video notifier: a shallow embedding of [main.py]

    The script loads [data.json], and for each tracked channel asks the
    YouTube Data API for the newest upload, compares its id with the stored
    one, mails a notice through the module-level SMTP connection and
    rewrites [data.json].

    Python values are embedded as the tree type [json]; every function of
    the script that has a [try]/[except] is embedded in a state-and-exception
    monad in which the state survives a raised exception, as it does in
    Python.  The world outside the script (the API, the SMTP server, faults
    of the file system) is an explicit oracle record [env]. *)

From Stdlib Require Import String Ascii List ZArith Bool Arith Lia DecimalString.
Import ListNotations.
Open Scope string_scope.

Set Implicit Arguments.
Set Warnings "-register-all".

(* ===================================================================== *)
(** ** Python values *)
(* ===================================================================== *)

(** The values that [json.load] and the API client produce.  A [dict] is
    kept as its items in insertion order, the order [dict.items()] and
    [json.dump] follow.  [JNull] is Python's [None].  Floating-point
    numbers are left out: the script only tests, compares and formats the
    values it meets. *)
Inductive json : Type :=
| JNull : json
| JBool : bool -> json
| JNum  : Z -> json
| JStr  : string -> json
| JArr  : list json -> json
| JObj  : list (string * json) -> json.

(** Exceptions, all of them subclasses of Python's [Exception]. *)
Inductive exn : Type :=
| KeyError        : json -> exn
| IndexError      : exn
| TypeError       : exn
| AttributeError  : exn
| HttpError       : Z -> exn          (* googleapiclient: HTTP status *)
| TransportError  : exn               (* socket / timeout while calling the API *)
| SMTPServerDisconnected : exn
| SMTPAuthenticationError : exn
| SMTPNotSupportedError : exn
| SMTPRecipientsRefused : exn
| SMTPDataError   : exn
| FileNotFoundError : exn
| PermissionError : exn
| OSError         : exn
| JSONDecodeError : exn.

Definition result (A : Type) : Type := (exn + A)%type.

(** Truth value of a Python object, as [if x:] and [not x] take it. *)
Definition truthy (v : json) : bool :=
  match v with
  | JNull => false
  | JBool b => b
  | JNum z => negb (Z.eqb z 0)
  | JStr s => negb (String.eqb s "")
  | JArr l => match l with [] => false | _ => true end
  | JObj l => match l with [] => false | _ => true end
  end.

(** [d.get(k)] on the items of a dict. *)
Fixpoint assoc (k : string) (l : list (string * json)) : option json :=
  match l with
  | [] => None
  | (k', v) :: l' => if String.eqb k k' then Some v else assoc k l'
  end.

(** [d[k] = v] on the items of a dict: an existing key keeps its place. *)
Fixpoint dict_set (k : string) (v : json) (l : list (string * json))
  : list (string * json) :=
  match l with
  | [] => [(k, v)]
  | (k', v') :: l' =>
      if String.eqb k k' then (k', v) :: l' else (k', v') :: dict_set k v l'
  end.

(** Elementwise comparison of two lists, and inclusion of the items [xs]
    in the dict with items [ys], both with [eq] on the values. *)
Definition all2 (eq : json -> json -> bool) :=
  fix all2 (xs ys : list json) {struct xs} : bool :=
    match xs, ys with
    | [], [] => true
    | x :: xs', y :: ys' => eq x y && all2 xs' ys'
    | _, _ => false
    end.

Definition included (eq : json -> json -> bool) (ys : list (string * json)) :=
  fix included (xs : list (string * json)) {struct xs} : bool :=
    match xs with
    | [] => true
    | (k, v) :: xs' =>
        match assoc k ys with
        | Some w => eq v w && included xs'
        | None => false
        end
    end.

(** Python's [==] on these values: [True == 1], lists compare elementwise,
    dicts compare as mappings whatever their order. *)
Fixpoint py_eq (a b : json) {struct a} : bool :=
  match a, b with
  | JNull, JNull => true
  | JBool x, JBool y => Bool.eqb x y
  | JBool x, JNum n => Z.eqb (if x then 1 else 0) n
  | JNum n, JBool y => Z.eqb n (if y then 1 else 0)
  | JNum n, JNum m => Z.eqb n m
  | JStr s, JStr t => String.eqb s t
  | JArr xs, JArr ys => all2 py_eq xs ys
  | JObj xs, JObj ys =>
      Nat.eqb (length xs) (length ys) && included py_eq ys xs
  | _, _ => false
  end.

(** [x != y]. *)
Definition py_ne (a b : json) : bool := negb (py_eq a b).

(** [x[k]] with a string key. *)
Definition getitem (v : json) (k : string) : result json :=
  match v with
  | JObj l => match assoc k l with
              | Some w => inr w
              | None => inl (KeyError (JStr k))
              end
  | _ => inl TypeError
  end.

(** The first character of a string held as UTF-8 bytes: a lead byte and
    the continuation bytes (0x80..0xBF) that follow it. *)
Definition is_continuation (c : ascii) : bool :=
  let n := nat_of_ascii c in (128 <=? n)%nat && (n <=? 191)%nat.

Fixpoint continuation_bytes (s : string) : string :=
  match s with
  | String c s' =>
      if is_continuation c then String c (continuation_bytes s') else EmptyString
  | EmptyString => EmptyString
  end.

(** [x[0]]. *)
Definition getitem0 (v : json) : result json :=
  match v with
  | JArr (x :: _) => inr x
  | JArr [] => inl IndexError
  | JStr (String c s') => inr (JStr (String c (continuation_bytes s')))
  | JStr EmptyString => inl IndexError
  | JObj _ => inl (KeyError (JNum 0))
  | _ => inl TypeError
  end.

(** [x.get(k, default)]: only a dict has the method. *)
Definition get_method (v : json) (k : string) (default : json) : result json :=
  match v with
  | JObj l => inr (match assoc k l with Some w => w | None => default end)
  | _ => inl AttributeError
  end.

(** [k in x] for a string [k]: a key of a dict, an element of a list, a
    substring of a string; the other values are not containers. *)
Fixpoint is_prefix (p s : string) : bool :=
  match p, s with
  | EmptyString, _ => true
  | String a p', String b s' => Ascii.eqb a b && is_prefix p' s'
  | String _ _, EmptyString => false
  end.

Fixpoint is_substring (p s : string) : bool :=
  is_prefix p s ||
  match s with
  | EmptyString => false
  | String _ s' => is_substring p s'
  end.

Definition contains (v : json) (k : string) : result bool :=
  match v with
  | JObj l => inr (match assoc k l with Some _ => true | None => false end)
  | JArr l => inr (existsb (py_eq (JStr k)) l)
  | JStr s => inr (is_substring k s)
  | _ => inl TypeError
  end.

(** [x[k] = w]: item assignment with a string key. *)
Definition setitem (x : json) (k : string) (w : json) : result json :=
  match x with
  | JObj l => inr (JObj (dict_set k w l))
  | _ => inl TypeError
  end.

(** [x[k][f] = v], the assignment of [update_json_data].  [x[k]] is
    evaluated first; the dict it yields is mutated in place, so [x] shows
    the change at the position of [k]. *)
Definition setitem2 (x : json) (k f : string) (v : json) : result json :=
  match getitem x k with
  | inl e => inl e
  | inr inner =>
      match setitem inner f v with
      | inl e => inl e
      | inr inner' => setitem x k inner'
      end
  end.

(** [x.items()]: only a dict has the method. *)
Definition items_method (x : json) : result (list (string * json)) :=
  match x with
  | JObj l => inr l
  | _ => inl AttributeError
  end.

(** [str(x)], as an f-string applies it to an interpolated value.  For a
    list or a dict Python prints the [repr] of the elements; that printer
    belongs to the interpreter and is taken as the parameter [repr]. *)
Definition py_str (repr : json -> string) (v : json) : string :=
  match v with
  | JNull => "None"
  | JBool true => "True"
  | JBool false => "False"
  | JNum z => NilZero.string_of_int (Z.to_int z)
  | JStr s => s
  | JArr _ | JObj _ => repr v
  end.

(* ===================================================================== *)
(** ** The file [data.json] *)
(* ===================================================================== *)

(** A JSON text up to whitespace: the tree of the document.  An object
    keeps its members in the order of the text and may repeat a name. *)
Inductive doc : Type :=
| DNull : doc
| DBool : bool -> doc
| DNum  : Z -> doc
| DStr  : string -> doc
| DArr  : list doc -> doc
| DObj  : list (string * doc) -> doc.

(** The members of an object enter the dict one by one: [d[k] = v]. *)
Definition add_members (load : doc -> json) :=
  fix members (l : list (string * doc)) (acc : list (string * json))
      {struct l} : list (string * json) :=
    match l with
    | [] => acc
    | (k, v) :: l' => members l' (dict_set k (load v) acc)
    end.

(** [json.load]: an object becomes a dict built member by member, so a
    repeated name keeps the place of its first member and the value of its
    last one. *)
Fixpoint json_load (d : doc) : json :=
  match d with
  | DNull => JNull
  | DBool b => JBool b
  | DNum z => JNum z
  | DStr s => JStr s
  | DArr l => JArr (map json_load l)
  | DObj l => JObj (add_members json_load l [])
  end.

(** [json.dump]: a dict is written item by item in its own order. *)
Fixpoint json_dump (v : json) : doc :=
  match v with
  | JNull => DNull
  | JBool b => DBool b
  | JNum z => DNum z
  | JStr s => DStr s
  | JArr l => DArr (map json_dump l)
  | JObj l => DObj (map (fun p => (fst p, json_dump (snd p))) l)
  end.

(** No key occurs twice. *)
Fixpoint unique (ks : list string) : bool :=
  match ks with
  | [] => true
  | k :: ks' => negb (existsb (String.eqb k) ks') && unique ks'
  end.

(** The representation invariant of a Python value: the items of every
    dict in it have distinct keys. *)
Fixpoint wf (v : json) : bool :=
  match v with
  | JArr l => forallb wf l
  | JObj l => unique (map fst l) && forallb (fun p => wf (snd p)) l
  | _ => true
  end.

(** What the file holds: nothing, a text that [json.load] rejects, or a
    JSON document. *)
Inductive file_content : Type :=
| Missing : file_content
| Malformed : file_content
| Document : doc -> file_content.

(* ===================================================================== *)
(** ** The SMTP connection *)
(* ===================================================================== *)

(** The state of an [smtplib.SMTP] object. *)
Record smtp_session : Type := {
  connected : bool;     (* the socket is open *)
  tls : bool;           (* STARTTLS was completed *)
  logged_in : bool      (* AUTH was completed *)
}.

Inductive smtp_cmd : Type := Starttls | Login | Sendmail | Quit.

(** How the server and the network answer a command: it goes through, or
    the library raises; [drop] tells whether the socket was lost with it
    (smtplib closes the connection when the transport fails, and keeps it
    open when the server merely refuses). *)
Inductive reply : Type :=
| Accepted : reply
| Refused (e : exn) (drop : bool) : reply.

(** A mail as [post_gmail] builds it. *)
Record message : Type := {
  msg_from : string;
  msg_to : string;
  msg_subject : string;
  msg_body : string
}.

(* ===================================================================== *)
(** ** The outside world and the state of a run *)
(* ===================================================================== *)

(** Requests made to the YouTube API. *)
Inductive request : Type :=
| ChannelsList (channel_id : string)
| PlaylistItemsList (playlist_id : json).

(** Lines written by [print], one constructor per message of the script. *)
Inductive line : Type :=
| ChannelNotFound (channel_id : string)            (* l.62 *)
| NoVideoInChannel (channel_id : string)           (* l.90 *)
| ErrorOccurred (e : exn)                          (* l.94 *)
| Updated (channel_id : string) (video_id : json)  (* l.119 *)
| NotInJsonFile (channel_id : string)              (* l.121 *)
| JsonUpdateError (e : exn)                        (* l.124 *)
| MailSent                                         (* l.159 *)
| MailFailed (e : exn)                             (* l.163 *)
| Fetching (channel_id : string)                   (* l.180 *)
| NewVideoFound (title : json)                     (* l.191 *)
| PreviousId (stored : json)                       (* l.192 *)
| NewId (video_id : json)                          (* l.193 *)
| NoNewVideo (channel_id : string)                 (* l.202 *)
| FetchFailed (channel_id : string)                (* l.205 *)
| Separator.                                       (* l.207 *)

(** Everything the script does not define.
    - [channels_list c]: the outcome of
      [youtube.channels().list(part="contentDetails", id=c).execute()];
    - [playlist_items_list c p]: the outcome of the [playlistItems] request
      for playlist [p], made while channel [c] is checked;
    - [smtp_reply n s c]: the answer to command [c] sent in session state
      [s] during the [n]-th call of [post_gmail];
    - [open_fault n]: the failure, if any, of the [n]-th [open] of
      [data.json]; [write_fault n]: the failure, if any, of writing through
      the [n]-th [open], with what is left in the file;
    - [repr]: Python's printer for lists and dicts. *)
Record env : Type := {
  channels_list : string -> result json;
  playlist_items_list : string -> json -> result json;
  smtp_reply : nat -> smtp_session -> smtp_cmd -> reply;
  open_fault : nat -> option exn;
  write_fault : nat -> option (exn * file_content);
  repr : json -> string
}.

(** The state a run threads.  [requests], [outbox], [posts] and [opens]
    observe the run: the API requests made, the mails the server accepted,
    the number of calls of [post_gmail] and of [open]. *)
Record world : Type := {
  disk : file_content;
  gmail_server : smtp_session;
  stdout : list line;
  requests : list request;
  outbox : list message;
  posts : nat;
  opens : nat
}.

Definition set_disk (c : file_content) (w : world) : world :=
  {| disk := c; gmail_server := gmail_server w; stdout := stdout w;
     requests := requests w; outbox := outbox w; posts := posts w;
     opens := opens w |}.

Definition set_gmail_server (s : smtp_session) (w : world) : world :=
  {| disk := disk w; gmail_server := s; stdout := stdout w;
     requests := requests w; outbox := outbox w; posts := posts w;
     opens := opens w |}.

Definition add_line (l : line) (w : world) : world :=
  {| disk := disk w; gmail_server := gmail_server w; stdout := stdout w ++ [l];
     requests := requests w; outbox := outbox w; posts := posts w;
     opens := opens w |}.

Definition add_request (r : request) (w : world) : world :=
  {| disk := disk w; gmail_server := gmail_server w; stdout := stdout w;
     requests := requests w ++ [r]; outbox := outbox w; posts := posts w;
     opens := opens w |}.

Definition add_mail (m : message) (w : world) : world :=
  {| disk := disk w; gmail_server := gmail_server w; stdout := stdout w;
     requests := requests w; outbox := outbox w ++ [m]; posts := posts w;
     opens := opens w |}.

Definition count_post (w : world) : world :=
  {| disk := disk w; gmail_server := gmail_server w; stdout := stdout w;
     requests := requests w; outbox := outbox w; posts := S (posts w);
     opens := opens w |}.

Definition count_open (w : world) : world :=
  {| disk := disk w; gmail_server := gmail_server w; stdout := stdout w;
     requests := requests w; outbox := outbox w; posts := posts w;
     opens := S (opens w) |}.

(* ===================================================================== *)
(** ** Statements: state that survives exceptions *)
(* ===================================================================== *)

(** A Python statement: from a world to a value or a raised exception,
    and the world as the statement left it. *)
Definition M (A : Type) : Type := world -> result A * world.

Definition ret {A} (a : A) : M A := fun w => (inr a, w).

Definition raise {A} (e : exn) : M A := fun w => (inl e, w).

Definition bind {A B} (c : M A) (k : A -> M B) : M B :=
  fun w =>
    match c w with
    | (inl e, w') => (inl e, w')
    | (inr a, w') => k a w'
    end.

(** [try: c except Exception as e: h e]. *)
Definition try_except {A} (c : M A) (h : exn -> M A) : M A :=
  fun w =>
    match c w with
    | (inl e, w') => h e w'
    | (inr a, w') => (inr a, w')
    end.

(** The value of a pure expression that may raise. *)
Definition eval {A} (r : result A) : M A := fun w => (r, w).

Declare Scope py_scope.
Delimit Scope py_scope with py.
Notation "x <- c ;; k" := (bind c (fun x => k))
  (at level 61, c at next level, right associativity) : py_scope.
Notation "c ;; k" := (bind c (fun _ => k))
  (at level 61, right associativity) : py_scope.
Open Scope py_scope.

Definition print (l : line) : M unit := fun w => (inr tt, add_line l w).

(* ===================================================================== *)
(** ** Calls that leave the script *)
(* ===================================================================== *)

Section Script.

Variable E : env.

Definition channels_list_execute (channel_id : string) : M json :=
  fun w => (channels_list E channel_id, add_request (ChannelsList channel_id) w).

Definition playlist_items_list_execute (channel_id : string) (playlist_id : json)
  : M json :=
  fun w => (playlist_items_list E channel_id playlist_id,
            add_request (PlaylistItemsList playlist_id) w).

(** [with open(json_file_name, "r") as file: json.load(file)]. *)
Definition open_and_load : M json :=
  fun w =>
    let w1 := count_open w in
    match open_fault E (opens w) with
    | Some e => (inl e, w1)
    | None =>
        match disk w with
        | Missing => (inl FileNotFoundError, w1)
        | Malformed => (inl JSONDecodeError, w1)
        | Document d => (inr (json_load d), w1)
        end
    end.

(** [with open(json_file_name, "w") as file: json.dump(v, file, ...)]:
    a successful [open] empties the file before anything is written. *)
Definition open_and_dump (v : json) : M unit :=
  fun w =>
    let w1 := count_open w in
    match open_fault E (opens w) with
    | Some e => (inl e, w1)
    | None =>
        match write_fault E (opens w) with
        | Some (e, remains) => (inl e, set_disk remains w1)
        | None => (inr tt, set_disk (Document (json_dump v)) w1)
        end
    end.

Definition after_cmd (c : smtp_cmd) (s : smtp_session) : smtp_session :=
  match c with
  | Starttls => {| connected := connected s; tls := true; logged_in := logged_in s |}
  | Login => {| connected := connected s; tls := tls s; logged_in := true |}
  | Sendmail => s
  | Quit => {| connected := false; tls := tls s; logged_in := logged_in s |}
  end.

Definition close (s : smtp_session) : smtp_session :=
  {| connected := false; tls := tls s; logged_in := logged_in s |}.

(** A method of [gmail_server] called during the [n]-th [post_gmail]:
    on a closed connection smtplib raises [SMTPServerDisconnected] without
    sending anything. *)
Definition smtp_call (n : nat) (c : smtp_cmd) : M unit :=
  fun w =>
    let s := gmail_server w in
    if connected s then
      match smtp_reply E n s c with
      | Accepted => (inr tt, set_gmail_server (after_cmd c s) w)
      | Refused e drop =>
          (inl e, if drop then set_gmail_server (close s) w else w)
      end
    else (inl SMTPServerDisconnected, w).

Definition record_mail (m : message) : M unit := fun w => (inr tt, add_mail m w).

Definition next_post : M nat := fun w => (inr (posts w), count_post w).

(* ===================================================================== *)
(** ** The script *)
(* ===================================================================== *)

Definition from_email : string := "送信元のメールアドレス".
Definition to_email : string := "送信先のメールアドレス".

Definition watch_url : string := "https://www.youtube.com/watch?v=".

Definition none3 : json * json * json := (JNull, JNull, JNull).

(** [fetch_latest_video], l.44-95. *)
Definition fetch_latest_video (channel_id : string) : M (json * json * json) :=
  try_except
    (response <- channels_list_execute channel_id ;;
     items <- eval (getitem response "items") ;;
     if negb (truthy items) then
       print (ChannelNotFound channel_id) ;;
       ret none3
     else
       first <- eval (getitem0 items) ;;
       details <- eval (getitem first "contentDetails") ;;
       related <- eval (getitem details "relatedPlaylists") ;;
       uploads_playlist_id <- eval (getitem related "uploads") ;;
       playlist_response <- playlist_items_list_execute channel_id uploads_playlist_id ;;
       playlist_items <- eval (getitem playlist_response "items") ;;
       if truthy playlist_items then
         latest_item <- eval (getitem0 playlist_items) ;;
         snippet <- eval (getitem latest_item "snippet") ;;
         resource <- eval (getitem snippet "resourceId") ;;
         video_id <- eval (getitem resource "videoId") ;;
         title <- eval (getitem snippet "title") ;;
         ret (video_id, title, JStr (watch_url ++ py_str (repr E) video_id))
       else
         print (NoVideoInChannel channel_id) ;;
         ret none3)
    (fun e =>
       print (ErrorOccurred e) ;;
       ret none3).

(** [update_json_data], l.98-124. *)
Definition update_json_data (channel_id : string) (new_video_id : json) : M unit :=
  try_except
    (json_data <- open_and_load ;;
     present <- eval (contains json_data channel_id) ;;
     if (present : bool) then
       json_data' <- eval (setitem2 json_data channel_id "latestVideoId" new_video_id) ;;
       open_and_dump json_data' ;;
       print (Updated channel_id new_video_id)
     else
       print (NotInJsonFile channel_id))
    (fun e => print (JsonUpdateError e)).

Definition mail (title url : json) : message :=
  {| msg_from := from_email;
     msg_to := to_email;
     msg_subject := "新しい動画/ショートがアップロードされました";
     msg_body := "新しい動画がアップロードされました。" ++ String "010" "タイトル："
                 ++ py_str (repr E) title ++ String "010" "リンク："
                 ++ py_str (repr E) url |}.

(** [post_gmail], l.127-163. *)
Definition post_gmail (title url : json) : M unit :=
  let msg := mail title url in
  n <- next_post ;;
  try_except
    (smtp_call n Starttls ;;
     smtp_call n Login ;;
     smtp_call n Sendmail ;;
     record_mail msg ;;
     smtp_call n Quit ;;
     print MailSent)
    (fun error => print (MailFailed error)).

(** The body of the loop of the main block, l.178-207. *)
Definition check_channel (item : string * json) : M unit :=
  let (channel_id, channel_data) := item in
  stored_video_id <- eval (get_method channel_data "latestVideoId" (JStr "")) ;;
  print (Fetching channel_id) ;;
  fetched <- fetch_latest_video channel_id ;;
  let '(video_id, title, url) := fetched in
  (if truthy video_id then
     if py_ne video_id stored_video_id then
       print (NewVideoFound title) ;;
       print (PreviousId stored_video_id) ;;
       print (NewId video_id) ;;
       post_gmail title url ;;
       update_json_data channel_id video_id
     else
       print (NoNewVideo channel_id)
   else
     print (FetchFailed channel_id)) ;;
  print Separator.

(** [for channel_id, channel_data in jsonData.items(): ...]: an exception
    that leaves the body ends the loop and the run. *)
Fixpoint for_each (items : list (string * json)) : M unit :=
  match items with
  | [] => ret tt
  | item :: rest => check_channel item ;; for_each rest
  end.

(** The main block, l.168-207. *)
Definition main : M unit :=
  jsonData <- open_and_load ;;
  items <- eval (items_method jsonData) ;;
  for_each items.

End Script.

(** The world when the main block starts: the module-level statements have
    run, so [gmail_server] is a fresh connection to the server (l.37). *)
Definition fresh_session : smtp_session :=
  {| connected := true; tls := false; logged_in := false |}.

Definition start (c : file_content) : world :=
  {| disk := c; gmail_server := fresh_session; stdout := []; requests := [];
     outbox := []; posts := 0; opens := 0 |}.

(* ===================================================================== *)
(** ** Notions used by the statements *)
(* ===================================================================== *)

(** [log ls rs w]: the world [w] after the lines [ls] were printed and the
    requests [rs] were made. *)
Definition log (ls : list line) (rs : list request) (w : world) : world :=
  {| disk := disk w; gmail_server := gmail_server w; stdout := stdout w ++ ls;
     requests := requests w ++ rs; outbox := outbox w; posts := posts w;
     opens := opens w |}.

(** A statement whose outcome does not depend on the world and whose only
    traces are printed lines and API requests. *)
Definition observer {A} (c : M A) : Prop :=
  exists r ls rs, forall w, c w = (r, log ls rs w).

(** What [fetch_latest_video] returns for a channel: the call made in the
    starting world; [fetch_latest_video_value] shows that every world
    gives the same. *)
Definition fetched (E : env) (channel_id : string) : json * json * json :=
  match fst (fetch_latest_video E channel_id (start Missing)) with
  | inr r => r
  | inl _ => none3
  end.

Definition video_id_of (r : json * json * json) : json := fst (fst r).

(** The shape [(video_id, title, url)] or [(None, None, None)] as the
    docstring of [fetch_latest_video] reads when the three are taken to be
    present together. *)
Definition all_or_nothing (E : env) (r : json * json * json) : Prop :=
  let '(video_id, title, url) := r in
  (video_id <> JNull /\ title <> JNull /\ url <> JNull /\
   url = JStr (watch_url ++ py_str (repr E) video_id))
  \/ r = none3.

(** The statements of the loop body that follow the fetch (l.187-207). *)
Definition after_fetch (E : env) (channel_id : string) (stored_video_id : json)
  (r : json * json * json) : M unit :=
  let '(video_id, title, url) := r in
  (if truthy video_id then
     if py_ne video_id stored_video_id then
       print (NewVideoFound title) ;;
       print (PreviousId stored_video_id) ;;
       print (NewId video_id) ;;
       post_gmail E title url ;;
       update_json_data E channel_id video_id
     else
       print (NoNewVideo channel_id)
   else
     print (FetchFailed channel_id)) ;;
  print Separator.

(** Responses of the shape the API documents. *)
Definition channel_response (uploads : string) : json :=
  JObj [("items", JArr [JObj [("contentDetails",
     JObj [("relatedPlaylists", JObj [("uploads", JStr uploads)])])]])].

Definition playlist_response (video_id title : json) : json :=
  JObj [("items", JArr [JObj [("snippet",
     JObj [("resourceId", JObj [("videoId", video_id)]); ("title", title)])]])].

(** No list or dict is formatted in the scenarios of this file. *)
Definition no_repr (v : json) : string := "".

(** An API that answers every channel [c] with the upload ["new-" ++ c],
    a server that accepts every command, a file system without faults. *)
Definition healthy : env :=
  {| channels_list := fun c => inr (channel_response ("UU" ++ c));
     playlist_items_list :=
       fun c _ => inr (playlist_response (JStr ("new-" ++ c)) (JStr "New Upload"));
     smtp_reply := fun _ _ _ => Accepted;
     open_fault := fun _ => None;
     write_fault := fun _ => None;
     repr := no_repr |}.

(** The channel request of [fetch_latest_video] went through and named
    the uploads playlist [uploads] (l.57-68). *)
Definition resolves (E : env) (c : string) (uploads : json) : Prop :=
  exists response items first details related,
    channels_list E c = inr response /\
    getitem response "items" = inr items /\
    truthy items = true /\
    getitem0 items = inr first /\
    getitem first "contentDetails" = inr details /\
    getitem details "relatedPlaylists" = inr related /\
    getitem related "uploads" = inr uploads.

(** The expression of l.68 below [response["items"]]: the uploads
    playlist named by the first item. *)
Definition uploads_path (items : json) : result json :=
  match getitem0 items with
  | inl e => inl e
  | inr first =>
      match getitem first "contentDetails" with
      | inl e => inl e
      | inr details =>
          match getitem details "relatedPlaylists" with
          | inl e => inl e
          | inr related => getitem related "uploads"
          end
      end
  end.

(** The expressions of l.83-85: the id and the title of the first item
    of the playlist. *)
Definition item_path (items : json) : result (json * json) :=
  match getitem0 items with
  | inl e => inl e
  | inr latest_item =>
      match getitem latest_item "snippet" with
      | inl e => inl e
      | inr snippet =>
          match getitem snippet "resourceId" with
          | inl e => inl e
          | inr resource =>
              match getitem resource "videoId" with
              | inl e => inl e
              | inr video_id =>
                  match getitem snippet "title" with
                  | inl e => inl e
                  | inr title => inr (video_id, title)
                  end
              end
          end
      end
  end.

(** The ways [fetch_latest_video] fails, each with the line it prints:
    the channel has no item ([NotFound]), the uploads playlist is empty
    ([NoItems]), a request raises, or a response lacks what l.61, l.68,
    l.81 or l.83-85 look up in it, as the answer for an unknown channel
    does when it comes without ["items"]. *)
Inductive fetch_failure (E : env) (c : string) : line -> Prop :=
| NotFound response items :
    channels_list E c = inr response ->
    getitem response "items" = inr items ->
    truthy items = false ->
    fetch_failure E c (ChannelNotFound c)
| NoItems uploads response items :
    resolves E c uploads ->
    playlist_items_list E c uploads = inr response ->
    getitem response "items" = inr items ->
    truthy items = false ->
    fetch_failure E c (NoVideoInChannel c)
| TransientChannels e :
    channels_list E c = inl e ->
    fetch_failure E c (ErrorOccurred e)
| TransientPlaylist uploads e :
    resolves E c uploads ->
    playlist_items_list E c uploads = inl e ->
    fetch_failure E c (ErrorOccurred e)
| ChannelItemsMissing response e :
    channels_list E c = inr response ->
    getitem response "items" = inl e ->
    fetch_failure E c (ErrorOccurred e)
| UploadsMissing response items e :
    channels_list E c = inr response ->
    getitem response "items" = inr items ->
    truthy items = true ->
    uploads_path items = inl e ->
    fetch_failure E c (ErrorOccurred e)
| PlaylistItemsMissing uploads response e :
    resolves E c uploads ->
    playlist_items_list E c uploads = inr response ->
    getitem response "items" = inl e ->
    fetch_failure E c (ErrorOccurred e)
| ItemMisshapen uploads response items e :
    resolves E c uploads ->
    playlist_items_list E c uploads = inr response ->
    getitem response "items" = inr items ->
    truthy items = true ->
    item_path items = inl e ->
    fetch_failure E c (ErrorOccurred e).

(** An API whose first request fails with HTTP status [status] for the
    channel [bad], and that answers like [healthy] otherwise. *)
Definition failing_for (bad : string) (status : Z) : env :=
  {| channels_list :=
       fun c => if String.eqb c bad then inl (HttpError status)
                else inr (channel_response ("UU" ++ c));
     playlist_items_list :=
       fun c _ => inr (playlist_response (JStr ("new-" ++ c)) (JStr "New Upload"));
     smtp_reply := fun _ _ _ => Accepted;
     open_fault := fun _ => None;
     write_fault := fun _ => None;
     repr := no_repr |}.

(** An API whose playlist response carries [null] as [videoId]. *)
Definition null_video_id : env :=
  {| channels_list := fun c => inr (channel_response ("UU" ++ c));
     playlist_items_list :=
       fun _ _ => inr (playlist_response JNull (JStr "New Upload"));
     smtp_reply := fun _ _ _ => Accepted;
     open_fault := fun _ => None;
     write_fault := fun _ => None;
     repr := no_repr |}.

(** The exception, if any, with which a sequence of commands sent during
    the [n]-th [post_gmail] ends, from the session state [s]. *)
Fixpoint first_refusal (E : env) (n : nat) (s : smtp_session)
    (cmds : list smtp_cmd) : option exn :=
  match cmds with
  | [] => None
  | c :: cs =>
      if connected s then
        match smtp_reply E n s c with
        | Accepted => first_refusal E n (after_cmd c s) cs
        | Refused e _ => Some e
        end
      else Some SMTPServerDisconnected
  end.

(** The send fails with [e]: one of the four calls of [post_gmail] raises
    it.  At [Login] this is the spec's AuthFailed, elsewhere its
    TransportFailed. *)
Definition send_error (E : env) (n : nat) (s : smtp_session) : option exn :=
  first_refusal E n s [Starttls; Login; Sendmail; Quit].

(** The channels for which a request was made, in the order of the
    requests. *)
Definition channel_requests (rs : list request) : list string :=
  flat_map (fun r => match r with ChannelsList c => [c] | _ => [] end) rs.

(** [healthy], except that the connection is lost while the mail is
    transmitted. *)
Definition lossy : env :=
  {| channels_list := channels_list healthy;
     playlist_items_list := playlist_items_list healthy;
     smtp_reply := fun _ _ c =>
       match c with
       | Sendmail => Refused SMTPServerDisconnected true
       | _ => Accepted
       end;
     open_fault := fun _ => None;
     write_fault := fun _ => None;
     repr := no_repr |}.

(** [healthy], except that the server rejects the credentials. *)
Definition bad_login : env :=
  {| channels_list := channels_list healthy;
     playlist_items_list := playlist_items_list healthy;
     smtp_reply := fun _ _ c =>
       match c with
       | Login => Refused SMTPAuthenticationError false
       | _ => Accepted
       end;
     open_fault := fun _ => None;
     write_fault := fun _ => None;
     repr := no_repr |}.

(** Two registries. *)
Definition one_source : doc :=
  DObj [("UCabc", DObj [("latestVideoId", DStr "vid1")])].

Definition two_sources : doc :=
  DObj [("UCabc", DObj [("latestVideoId", DStr "vid1")]);
        ("UCdef", DObj [("latestVideoId", DStr "vid9")])].

(** [channel_data.get("latestVideoId", "")] on the fields of an entry. *)
Definition stored_id (fields : list (string * json)) : json :=
  match assoc "latestVideoId" fields with Some s => s | None => JStr "" end.

(** [healthy], except that the connection is lost while the first mail of
    the run is transmitted; the network is back for every later send. *)
Definition lossy_once : env :=
  {| channels_list := channels_list healthy;
     playlist_items_list := playlist_items_list healthy;
     smtp_reply := fun n _ c =>
       match n, c with
       | O, Sendmail => Refused SMTPServerDisconnected true
       | _, _ => Accepted
       end;
     open_fault := fun _ => None;
     write_fault := fun _ => None;
     repr := no_repr |}.

(** The value of the last member named [k] of an object. *)
Fixpoint last_member (k : string) (l : list (string * doc)) : option doc :=
  match l with
  | [] => None
  | (k', v) :: l' =>
      match last_member k l' with
      | Some x => Some x
      | None => if String.eqb k k' then Some v else None
      end
  end.

Inductive both (R : doc -> doc -> Prop) : option doc -> option doc -> Prop :=
| both_none : both R None None
| both_some x y : R x y -> both R (Some x) (Some y).

(** Two documents with the same semantic structure: equal scalars, arrays
    with the same structure element by element, objects that give every
    name the same structure, whatever the order of their members (a name
    that is repeated stands for its last member). *)
Inductive same_structure : doc -> doc -> Prop :=
| same_null : same_structure DNull DNull
| same_bool b : same_structure (DBool b) (DBool b)
| same_num z : same_structure (DNum z) (DNum z)
| same_str s : same_structure (DStr s) (DStr s)
| same_arr l l' :
    Forall2 same_structure l l' -> same_structure (DArr l) (DArr l')
| same_obj l l' :
    (forall k, both same_structure (last_member k l) (last_member k l')) ->
    same_structure (DObj l) (DObj l').

(** The decision of l.187-189 for a channel with the stored fields
    [fields]: the fetch gave an id, and it is not the stored one. *)
Definition notifies (E : env) (c : string) (fields : list (string * json)) : bool :=
  truthy (video_id_of (fetched E c)) &&
  py_ne (video_id_of (fetched E c)) (stored_id fields).

(** A registry entry as a run in the world [E] leaves it in the file when
    its updates are written: the fetched id replaces the stored one where
    the decision was to notify. *)
Definition notified_entry (E : env) (item : string * json) : string * json :=
  match item with
  | (c, JObj fields) =>
      if notifies E c fields
      then (c, JObj (dict_set "latestVideoId" (video_id_of (fetched E c)) fields))
      else item
  | _ => item
  end.

(** A document that names ["a"] twice. *)
Definition repeated_name : doc :=
  DObj [("a", DNum 1); ("b", DNum 2); ("a", DNum 3)].

(** An API that answers the channel request without the key ["items"],
    as it does when no channel matches. *)
Definition no_items_key : env :=
  {| channels_list :=
       fun _ => inr (JObj [("kind", JStr "youtube#channelListResponse")]);
     playlist_items_list := playlist_items_list healthy;
     smtp_reply := fun _ _ _ => Accepted;
     open_fault := fun _ => None;
     write_fault := fun _ => None;
     repr := no_repr |}.

(** [healthy], except that the connection breaks when [quit()] is sent. *)
Definition quit_fails : env :=
  {| channels_list := channels_list healthy;
     playlist_items_list := playlist_items_list healthy;
     smtp_reply := fun _ _ c =>
       match c with
       | Quit => Refused SMTPServerDisconnected true
       | _ => Accepted
       end;
     open_fault := fun _ => None;
     write_fault := fun _ => None;
     repr := no_repr |}.

(** A registry whose entry is the id itself instead of a dict. *)
Definition flat_registry : doc := DObj [("UCabc", DStr "vid1")].

(** The number of lines [MailSent] among printed lines. *)
Definition count_sent (ls : list line) : nat :=
  length (filter (fun l => match l with MailSent => true | _ => false end) ls).

(** A statement keeps a relation between the world it starts in and the
    world it leaves, whether it returns or raises. *)
Definition keeps {A} (R : world -> world -> Prop) (c : M A) : Prop :=
  forall w, R w (snd (c w)).

(** The statement touches neither the connection nor the mails, and
    prints no [MailSent]. *)
Definition calm (w w' : world) : Prop :=
  gmail_server w' = gmail_server w /\
  outbox w' = outbox w /\
  count_sent (stdout w') = count_sent (stdout w).

(** What holds between two points of a run, [gmail_server] being the one
    connection of the module: from a closed connection on it stays closed,
    no mail leaves and no [MailSent] is printed; and [MailSent] is printed
    at most once in between, with the connection closed after it. *)
Definition once_closed (w w' : world) : Prop :=
  (connected (gmail_server w) = false ->
   connected (gmail_server w') = false /\
   outbox w' = outbox w /\
   count_sent (stdout w') = count_sent (stdout w)) /\
  (count_sent (stdout w') = count_sent (stdout w) \/
   (count_sent (stdout w') = S (count_sent (stdout w)) /\
    connected (gmail_server w') = false)).

(** The number of sources of a registry snapshot for which the decision
    of l.187-189 is to notify. *)
Definition notify_count (E : env) (items : list (string * json)) : nat :=
  length (filter (fun p => match snd p with
                           | JObj fields => notifies E (fst p) fields
                           | _ => false
                           end) items).

(** [healthy] for a channel whose stored id is already the newest: the
    API answers ["vid1"] for every channel. *)
Definition nothing_new : env :=
  {| channels_list := channels_list healthy;
     playlist_items_list :=
       fun _ _ => inr (playlist_response (JStr "vid1") (JStr "Old Upload"));
     smtp_reply := fun _ _ _ => Accepted;
     open_fault := fun _ => None;
     write_fault := fun _ => None;
     repr := no_repr |}.

(** A registry whose second entry is not a dict. *)
Definition broken_second : doc :=
  DObj [("UCabc", DObj [("latestVideoId", DStr "vid1")]);
        ("UCdef", DStr "vid9");
        ("UCghi", DObj [("latestVideoId", DStr "vid5")])].

(** Printing only adds lines. *)
Definition grows (w w' : world) : Prop :=
  exists more, stdout w' = (stdout w ++ more)%list.

(** An exception met while a source is processed from the world [w], with
    the line that reports it: one of the two API requests raises it (an
    authorization error, HTTP 401 or 403, is such an exception), or the
    decision is to notify and the send raises it (a rejected login raises
    [SMTPAuthenticationError]). *)
Inductive source_error (E : env) (c : string) (fields : list (string * json))
    (w : world) : line -> Prop :=
| ChannelRequestRaises e :
    channels_list E c = inl e ->
    source_error E c fields w (ErrorOccurred e)
| PlaylistRequestRaises uploads e :
    resolves E c uploads ->
    playlist_items_list E c uploads = inl e ->
    source_error E c fields w (ErrorOccurred e)
| SendRaises e :
    notifies E c fields = true ->
    send_error E (posts w) (gmail_server w) = Some e ->
    source_error E c fields w (MailFailed e).

(** [healthy], except that the API does not know the channel [bad]: its
    answer for it comes without the key ["items"]. *)
Definition unknown_channel_for (bad : string) : env :=
  {| channels_list :=
       fun c => if String.eqb c bad
                then inr (JObj [("kind", JStr "youtube#channelListResponse")])
                else inr (channel_response ("UU" ++ c));
     playlist_items_list := playlist_items_list healthy;
     smtp_reply := fun _ _ _ => Accepted;
     open_fault := fun _ => None;
     write_fault := fun _ => None;
     repr := no_repr |}.

(** A registry whose first source the API does not know. *)
Definition unknown_first : doc :=
  DObj [("UCbad", DObj [("latestVideoId", DStr "vid1")]);
        ("UCdef", DObj [("latestVideoId", DStr "vid9")])].

(* ===================================================================== *)
(** ** Statements that only print and call the API *)
(* ===================================================================== *)

Unset Implicit Arguments.

(** Tactics that open the statements of the script. *)
Ltac unfold_py :=
  unfold try_except, bind, eval, ret, raise, print,
    channels_list_execute, playlist_items_list_execute in *.

Ltac split_match :=
  match goal with
  | |- context [match ?x with _ => _ end] =>
      lazymatch x with
      | context [match _ with _ => _ end] => fail
      | _ => destruct x eqn:?
      end
  | |- context [if ?x then _ else _] =>
      lazymatch x with
      | context [match _ with _ => _ end] => fail
      | context [if _ then _ else _] => fail
      | _ => destruct x eqn:?
      end
  end.

Ltac unfold_io :=
  unfold open_and_load, open_and_dump, smtp_call, record_mail, next_post,
    set_disk, set_gmail_server, add_line, add_request, add_mail, count_post,
    count_open, close in *.

Ltac crush_py := unfold_py; unfold_io; simpl; repeat (split_match; simpl); auto.

Lemma log_nil w : log [] [] w = w.
Proof. destruct w; unfold log; simpl; now rewrite !app_nil_r. Qed.

Lemma log_log ls rs ls' rs' w :
  log ls' rs' (log ls rs w) = log (ls ++ ls')%list (rs ++ rs')%list w.
Proof. unfold log; simpl; now rewrite !app_assoc. Qed.

Lemma observer_ret {A} (a : A) : observer (ret a).
Proof. exists (inr a), [], []; intro w; unfold ret; now rewrite log_nil. Qed.

Lemma observer_eval {A} (r : result A) : observer (eval r).
Proof. exists r, [], []; intro w; unfold eval; now rewrite log_nil. Qed.

Lemma observer_print l : observer (print l).
Proof.
  exists (inr tt), [l], []; intro w; unfold print, add_line, log; simpl.
  now rewrite app_nil_r.
Qed.

Lemma observer_channels_list E c : observer (channels_list_execute E c).
Proof.
  exists (channels_list E c), [], [ChannelsList c]; intro w.
  unfold channels_list_execute, add_request, log; simpl; now rewrite app_nil_r.
Qed.

Lemma observer_playlist_items_list E c p :
  observer (playlist_items_list_execute E c p).
Proof.
  exists (playlist_items_list E c p), [], [PlaylistItemsList p]; intro w.
  unfold playlist_items_list_execute, add_request, log; simpl.
  now rewrite app_nil_r.
Qed.

Lemma observer_bind {A B} (c : M A) (k : A -> M B) :
  observer c -> (forall a, observer (k a)) -> observer (bind c k).
Proof.
  intros (r & ls & rs & Hc) Hk. destruct r as [e | a].
  - exists (inl e), ls, rs; intro w; unfold bind; now rewrite Hc.
  - destruct (Hk a) as (r' & ls' & rs' & Hka).
    exists r', (ls ++ ls')%list, (rs ++ rs')%list; intro w; unfold bind.
    now rewrite Hc, Hka, log_log.
Qed.

Lemma observer_try_except {A} (c : M A) (h : exn -> M A) :
  observer c -> (forall e, observer (h e)) -> observer (try_except c h).
Proof.
  intros (r & ls & rs & Hc) Hh. destruct r as [e | a].
  - destruct (Hh e) as (r' & ls' & rs' & Hhe).
    exists r', (ls ++ ls')%list, (rs ++ rs')%list; intro w; unfold try_except.
    now rewrite Hc, Hhe, log_log.
  - exists (inr a), ls, rs; intro w; unfold try_except; now rewrite Hc.
Qed.

Lemma observer_if {A} (b : bool) (c d : M A) :
  observer c -> observer d -> observer (if b then c else d).
Proof. now destruct b. Qed.

Create HintDb observer.

#[local] Hint Resolve observer_ret observer_eval observer_print
  observer_channels_list observer_playlist_items_list : observer.

Ltac observe :=
  repeat first
    [ apply observer_bind; [ | intro ]
    | apply observer_try_except; [ | intro ]
    | apply observer_if
    | solve [ auto with observer ] ].

Lemma observer_fetch_latest_video E c : observer (fetch_latest_video E c).
Proof. unfold fetch_latest_video. observe. Qed.

(** A handler that returns makes the whole [try] return. *)
Lemma try_except_returns {A} (c : M A) (h : exn -> M A) w :
  (forall e w', exists a, fst (h e w') = inr a) ->
  exists a, fst (try_except c h w) = inr a.
Proof.
  intro Hh. unfold try_except. destruct (c w) as [[e | a] w'].
  - apply Hh.
  - now exists a.
Qed.

Lemma fetch_latest_video_returns E c w :
  exists r, fst (fetch_latest_video E c w) = inr r.
Proof.
  unfold fetch_latest_video. apply try_except_returns.
  intros e w'. now exists none3.
Qed.

Lemma channel_requests_app rs rs' :
  channel_requests (rs ++ rs') = (channel_requests rs ++ channel_requests rs')%list.
Proof. unfold channel_requests. apply flat_map_app. Qed.

(** One channel request is made, whatever comes of it. *)
Lemma fetch_latest_video_requests E c w :
  channel_requests (requests (snd (fetch_latest_video E c w)))
  = (channel_requests (requests w) ++ [c])%list.
Proof.
  unfold fetch_latest_video. unfold_py.
  repeat (split_match; simpl);
    repeat (rewrite channel_requests_app; simpl);
    rewrite <- ?app_assoc, ?app_nil_r; reflexivity.
Qed.

(** The call returns [fetched E c] in every world, and leaves nothing but
    printed lines and API requests, one of them for the channel. *)
Lemma fetch_latest_video_value E c :
  exists ls rs,
    channel_requests rs = [c] /\
    forall w, fetch_latest_video E c w = (inr (fetched E c), log ls rs w).
Proof.
  destruct (observer_fetch_latest_video E c) as (r & ls & rs & H).
  exists ls, rs. split.
  - pose proof (fetch_latest_video_requests E c (start Missing)) as Hr.
    rewrite H in Hr. exact Hr.
  - intro w. unfold fetched. rewrite (H (start Missing)). simpl.
    destruct (fetch_latest_video_returns E c w) as (r' & Hr').
    rewrite H in Hr'. simpl in Hr'. subst r. now rewrite H.
Qed.

(* ===================================================================== *)
(** ** [fetch_latest_video]: what it can return *)
(* ===================================================================== *)

(** C10 (as amended).  [fetch_latest_video] returns for every channel id,
    every behaviour of the API and every world: no exception reaches the
    caller.  What it returns is [(None, None, None)], or the [videoId] and
    the [title] that the first item of the playlist response holds,
    together with a url that is a string: the fixed prefix followed by
    [str(videoId)].  So the url is never [None] on that branch, while the
    id and the title are whatever the API put there. *)
Theorem fetch_latest_video_shape (E : env) (channel_id : string) (w : world) :
  exists r,
    fst (fetch_latest_video E channel_id w) = inr r /\
    (r = none3 \/
     exists uploads response items latest_item snippet resource video_id title,
       playlist_items_list E channel_id uploads = inr response /\
       getitem response "items" = inr items /\
       getitem0 items = inr latest_item /\
       getitem latest_item "snippet" = inr snippet /\
       getitem snippet "resourceId" = inr resource /\
       getitem resource "videoId" = inr video_id /\
       getitem snippet "title" = inr title /\
       r = (video_id, title, JStr (watch_url ++ py_str (repr E) video_id))).
Proof.
  unfold fetch_latest_video. unfold_py.
  repeat (split_match; simpl; try (eexists; split; [reflexivity | now left])).
  eexists; split; [reflexivity | right].
  repeat eexists; eassumption.
Qed.

(** C10 as stated fails: when the playlist item holds [null] as its
    [videoId], the call returns [None] as id next to a title and a url
    that are not [None]. *)
Lemma fetch_latest_video_null_id :
  fst (fetch_latest_video null_video_id "UCabc" (start Missing))
  = inr (JNull, JStr "New Upload", JStr "https://www.youtube.com/watch?v=None")
  /\ ~ all_or_nothing null_video_id
        (JNull, JStr "New Upload", JStr "https://www.youtube.com/watch?v=None").
Proof.
  split; [reflexivity |].
  unfold all_or_nothing, none3. intros [(H & _) | H]; [now apply H | discriminate].
Qed.

(* ===================================================================== *)
(** ** What each function of the script leaves untouched *)
(* ===================================================================== *)

(** [post_gmail] always returns, counts one call, and touches neither the
    file nor the API. *)
Lemma post_gmail_frame E title url w :
  let w' := snd (post_gmail E title url w) in
  fst (post_gmail E title url w) = inr tt /\
  posts w' = S (posts w) /\ disk w' = disk w /\ requests w' = requests w /\
  opens w' = opens w.
Proof. unfold post_gmail. crush_py. Qed.

(** [update_json_data] always returns, and touches neither the connection,
    the mails, the API nor the count of calls of [post_gmail]. *)
Lemma update_json_data_frame E c v w :
  let w' := snd (update_json_data E c v w) in
  fst (update_json_data E c v w) = inr tt /\
  posts w' = posts w /\ gmail_server w' = gmail_server w /\
  outbox w' = outbox w /\ requests w' = requests w.
Proof. unfold update_json_data. crush_py. Qed.

(** The loop body on an entry whose data is a dict: the stored id is read,
    the fetch prints and calls the API, and the rest runs on its value. *)
Lemma check_channel_dict E c fields :
  exists ls rs,
    channel_requests rs = [c] /\
    forall w,
      check_channel E (c, JObj fields) w =
      after_fetch E c (stored_id fields) (fetched E c) (log (Fetching c :: ls) rs w).
Proof.
  destruct (fetch_latest_video_value E c) as (ls & rs & Hrs & H).
  exists ls, rs; split; [exact Hrs |]. intro w.
  unfold check_channel, after_fetch, stored_id. simpl.
  unfold bind at 1. unfold eval at 1. unfold bind at 1. unfold print at 1.
  unfold bind at 1. rewrite H.
  replace (log ls rs (add_line (Fetching c) w)) with (log (Fetching c :: ls) rs w).
  - destruct (fetched E c) as [[v t] u]. reflexivity.
  - unfold log, add_line; simpl. rewrite <- app_assoc. reflexivity.
Qed.

(** The loop body on an entry whose data is not a dict: [.get] raises
    [AttributeError] before anything else happens. *)
Lemma check_channel_not_dict E c data w :
  (forall fields, data <> JObj fields) ->
  check_channel E (c, data) w = (inl AttributeError, w).
Proof.
  intro H. unfold check_channel.
  destruct data; try reflexivity. now elim (H l).
Qed.

(** After the fetch nothing raises. *)
Lemma after_fetch_returns E c stored r w :
  fst (after_fetch E c stored r w) = inr tt.
Proof.
  destruct r as [[v t] u]. unfold after_fetch.
  destruct (truthy v); [destruct (py_ne v stored) |]; unfold_py; simpl; auto.
  destruct (post_gmail_frame E t u
              (add_line (NewId v) (add_line (PreviousId stored)
                 (add_line (NewVideoFound t) w)))) as (Hp & _).
  destruct (post_gmail E t u _) as [rp wp]. simpl in Hp. subst rp.
  destruct (update_json_data_frame E c v wp) as (Hu & _).
  destruct (update_json_data E c v wp) as [ru wu]. simpl in Hu. subst ru.
  reflexivity.
Qed.

(* ===================================================================== *)
(** ** The change decision *)
(* ===================================================================== *)

Lemma posts_log ls rs w : posts (log ls rs w) = posts w.
Proof. reflexivity. Qed.

(** C3.  For a stored identifier [s] (the string under [latestVideoId], or
    the empty string when the entry has none) and a fetched item whose id
    [v] passes the test [if video_id:] of l.187, the loop body calls
    [post_gmail] exactly when [v] differs from [s], and not at all when they
    are equal; with [s] empty it always calls it. *)
Theorem change_decision (E : env) (c : string) (data : json) (s v : string)
    (title url : json) (w : world) :
  get_method data "latestVideoId" (JStr "") = inr (JStr s) ->
  fetched E c = (JStr v, title, url) ->
  truthy (JStr v) = true ->
  let w' := snd (check_channel E (c, data) w) in
  (posts w' = S (posts w) <-> v <> s) /\
  (posts w' = posts w <-> v = s) /\
  (s = "" -> posts w' = S (posts w)).
Proof.
  intros Hget Hfetch Htruthy.
  destruct data as [| | | | |fields]; try discriminate.
  destruct (check_channel_dict E c fields) as (ls & rs & _ & Hc).
  rewrite Hc. simpl in Hget. fold (stored_id fields) in Hget.
  injection Hget as Hs. rewrite Hs, Hfetch.
  unfold after_fetch. rewrite Htruthy. unfold py_ne. simpl py_eq.
  assert (Hne : v <> "").
  { simpl in Htruthy. destruct (String.eqb_spec v ""); [discriminate | assumption]. }
  destruct (String.eqb_spec v s) as [Heq | Hneq]; simpl negb.
  - (* equal: no mail *)
    unfold_py. simpl. repeat split; intros; try congruence; try lia.
  - (* different: one mail *)
    unfold_py. simpl.
    match goal with |- context [post_gmail E title url ?w0] =>
      destruct (post_gmail_frame E title url w0) as (Hp & Hn & _);
      destruct (post_gmail E title url w0) as [rp wp] end.
    simpl in Hp, Hn. subst rp.
    destruct (update_json_data_frame E c (JStr v) wp) as (Hu & Hm & _).
    destruct (update_json_data E c (JStr v) wp) as [ru wu].
    simpl in Hu, Hm. subst ru. simpl. rewrite Hm, Hn. simpl.
    repeat split; intros; try congruence; try lia.
Qed.

Lemma change_decision_witness :
  let w' := snd (check_channel healthy
                   ("UCabc", JObj [("latestVideoId", JStr "vid1")])
                   (start Missing)) in
  (posts w' = S (posts (start Missing)) <-> "new-UCabc" <> "vid1") /\
  (posts w' = posts (start Missing) <-> "new-UCabc" = "vid1") /\
  ("vid1" = "" -> posts w' = S (posts (start Missing))).
Proof.
  apply (@change_decision healthy "UCabc" (JObj [("latestVideoId", JStr "vid1")])
           "vid1" "new-UCabc" (JStr "New Upload")
           (JStr "https://www.youtube.com/watch?v=new-UCabc") (start Missing));
    reflexivity.
Defined.

(* ===================================================================== *)
(** ** A failed fetch *)
(* ===================================================================== *)

(** A failed fetch returns [(None, None, None)] after printing one line. *)
Lemma fetch_failure_none E c l :
  fetch_failure E c l ->
  exists rs, forall w,
    fetch_latest_video E c w = (inr none3, log [l] rs w).
Proof.
  intros [response items Hr Hi Ht
         | uploads response items (r0 & i0 & f0 & d0 & rel & H1 & H2 & H3 & H4 & H5 & H6 & H7) Hr Hi Ht
         | e He
         | uploads e (r0 & i0 & f0 & d0 & rel & H1 & H2 & H3 & H4 & H5 & H6 & H7) He
         | response e Hr Hi
         | response items e Hr Hi Ht Hpath
         | uploads response e (r0 & i0 & f0 & d0 & rel & H1 & H2 & H3 & H4 & H5 & H6 & H7) Hr Hi
         | uploads response items e (r0 & i0 & f0 & d0 & rel & H1 & H2 & H3 & H4 & H5 & H6 & H7) Hr Hi Ht Hpath].
  - exists [ChannelsList c]; intro w.
    unfold fetch_latest_video. unfold_py. now rewrite Hr, Hi, Ht.
  - exists [ChannelsList c; PlaylistItemsList uploads]; intro w.
    unfold fetch_latest_video. unfold_py.
    rewrite H1, H2, H3. simpl. rewrite H4, H5, H6, H7, Hr, Hi, Ht. simpl.
    unfold log, add_line, add_request; simpl. now rewrite <- app_assoc.
  - exists [ChannelsList c]; intro w.
    unfold fetch_latest_video. unfold_py. now rewrite He.
  - exists [ChannelsList c; PlaylistItemsList uploads]; intro w.
    unfold fetch_latest_video. unfold_py.
    rewrite H1, H2, H3. simpl. rewrite H4, H5, H6, H7, He. simpl.
    unfold log, add_line, add_request; simpl. now rewrite <- app_assoc.
  - exists [ChannelsList c]; intro w.
    unfold fetch_latest_video. unfold_py. now rewrite Hr, Hi.
  - exists [ChannelsList c]; intro w.
    unfold fetch_latest_video. unfold_py. rewrite Hr, Hi, Ht. simpl.
    unfold uploads_path in Hpath.
    repeat match type of Hpath with
           | match ?x with _ => _ end = _ => destruct x; try discriminate
           end;
      try (injection Hpath as <-); try rewrite Hpath; reflexivity.
  - exists [ChannelsList c; PlaylistItemsList uploads]; intro w.
    unfold fetch_latest_video. unfold_py.
    rewrite H1, H2, H3. simpl. rewrite H4, H5, H6, H7, Hr, Hi. simpl.
    unfold log, add_line, add_request; simpl. now rewrite <- app_assoc.
  - exists [ChannelsList c; PlaylistItemsList uploads]; intro w.
    unfold fetch_latest_video. unfold_py.
    rewrite H1, H2, H3. simpl. rewrite H4, H5, H6, H7, Hr, Hi, Ht. simpl.
    unfold item_path in Hpath.
    repeat match type of Hpath with
           | match ?x with _ => _ end = _ => destruct x; try discriminate
           end;
      try (injection Hpath as <-); try rewrite Hpath; simpl;
      unfold log, add_line, add_request; simpl; now rewrite <- app_assoc.
Qed.

(* ===================================================================== *)
(** ** Dicts and the file format *)
(* ===================================================================== *)

(** Induction over values and documents, through their lists. *)
Lemma json_ind2 (P : json -> Prop) :
  P JNull -> (forall b, P (JBool b)) -> (forall z, P (JNum z)) ->
  (forall s, P (JStr s)) ->
  (forall l, Forall P l -> P (JArr l)) ->
  (forall l, Forall (fun p => P (snd p)) l -> P (JObj l)) ->
  forall v, P v.
Proof.
  intros Hnull Hbool Hnum Hstr Harr Hobj.
  fix IH 1.
  intros [| b | z | s | l | l];
    [exact Hnull | apply Hbool | apply Hnum | apply Hstr | apply Harr | apply Hobj].
  - induction l as [| x l IHl]; constructor; [apply IH | exact IHl].
  - induction l as [| [k x] l IHl]; constructor; [apply IH | exact IHl].
Qed.

Lemma doc_ind2 (P : doc -> Prop) :
  P DNull -> (forall b, P (DBool b)) -> (forall z, P (DNum z)) ->
  (forall s, P (DStr s)) ->
  (forall l, Forall P l -> P (DArr l)) ->
  (forall l, Forall (fun p => P (snd p)) l -> P (DObj l)) ->
  forall d, P d.
Proof.
  intros Hnull Hbool Hnum Hstr Harr Hobj.
  fix IH 1.
  intros [| b | z | s | l | l];
    [exact Hnull | apply Hbool | apply Hnum | apply Hstr | apply Harr | apply Hobj].
  - induction l as [| x l IHl]; constructor; [apply IH | exact IHl].
  - induction l as [| [k x] l IHl]; constructor; [apply IH | exact IHl].
Qed.

Lemma assoc_dict_set_same k v l : assoc k (dict_set k v l) = Some v.
Proof.
  induction l as [| [k' v'] l IH]; simpl.
  - now rewrite String.eqb_refl.
  - destruct (String.eqb_spec k k') as [-> | Hne]; simpl.
    + now rewrite String.eqb_refl.
    + destruct (String.eqb_spec k k'); [contradiction | assumption].
Qed.

Lemma assoc_dict_set_other k k' v l :
  k <> k' -> assoc k' (dict_set k v l) = assoc k' l.
Proof.
  intro Hne. induction l as [| [k0 v0] l IH]; simpl.
  - destruct (String.eqb_spec k' k); [congruence | reflexivity].
  - destruct (String.eqb_spec k k0) as [-> | Hk]; simpl.
    + destruct (String.eqb_spec k' k0); [congruence | reflexivity].
    + destruct (String.eqb_spec k' k0); [reflexivity | assumption].
Qed.

Lemma keys_dict_set_present k v w l :
  assoc k l = Some w -> map fst (dict_set k v l) = map fst l.
Proof.
  induction l as [| [k' v'] l IH]; simpl; [discriminate |].
  destruct (String.eqb_spec k k'); simpl; [reflexivity |].
  intro H. now rewrite IH.
Qed.

Lemma dict_set_absent k v l :
  assoc k l = None -> dict_set k v l = (l ++ [(k, v)])%list.
Proof.
  induction l as [| [k' v'] l IH]; simpl; [reflexivity |].
  destruct (String.eqb_spec k k'); [discriminate |].
  intro H. now rewrite IH.
Qed.

Lemma in_keys_assoc k l :
  existsb (String.eqb k) (map fst l) = true <-> assoc k l <> None.
Proof.
  induction l as [| [k' v'] l IH]; simpl.
  - split; [discriminate | congruence].
  - destruct (String.eqb_spec k k'); simpl.
    + split; [discriminate | reflexivity].
    + assumption.
Qed.

Lemma not_in_keys_assoc k l :
  existsb (String.eqb k) (map fst l) = false <-> assoc k l = None.
Proof.
  destruct (in_keys_assoc k l) as [H1 H2].
  destruct (existsb (String.eqb k) (map fst l)), (assoc k l) eqn:Ha;
    split; intro; try reflexivity; try discriminate.
  - now elim H1.
  - assert (false = true) by (apply H2; discriminate). discriminate.
Qed.

Lemma unique_app_one ks k :
  unique ks = true -> existsb (String.eqb k) ks = false ->
  unique (ks ++ [k]) = true.
Proof.
  induction ks as [| k0 ks IH]; simpl; [reflexivity |].
  intros Hu Hk. apply andb_true_iff in Hu as [Hn Hu].
  apply orb_false_iff in Hk as [Hk0 Hk].
  rewrite existsb_app. simpl. rewrite String.eqb_sym in Hk0.
  apply negb_true_iff in Hn. rewrite Hn, Hk0. simpl. now apply IH.
Qed.

Lemma unique_dict_set k v l :
  unique (map fst l) = true -> unique (map fst (dict_set k v l)) = true.
Proof.
  intro Hu. destruct (assoc k l) as [w |] eqn:Ha.
  - now erewrite keys_dict_set_present by eassumption.
  - rewrite dict_set_absent by assumption. rewrite map_app. simpl.
    apply unique_app_one; [assumption |]. now apply not_in_keys_assoc.
Qed.

Lemma values_dict_set (P : json -> bool) k v l :
  P v = true -> forallb (fun p => P (snd p)) l = true ->
  forallb (fun p => P (snd p)) (dict_set k v l) = true.
Proof.
  intros Hv. induction l as [| [k' v'] l IH]; simpl.
  - now rewrite Hv.
  - intro H. apply andb_true_iff in H as [H1 H2].
    destruct (String.eqb k k'); simpl.
    + now rewrite Hv, H2.
    + now rewrite H1, IH.
Qed.

Lemma wf_dict_set k v l :
  wf v = true -> wf (JObj l) = true -> wf (JObj (dict_set k v l)) = true.
Proof.
  simpl. intros Hv H. apply andb_true_iff in H as [Hu Hl].
  apply andb_true_iff; split.
  - now apply unique_dict_set.
  - now apply values_dict_set.
Qed.

Lemma wf_add_members l : forall acc,
  Forall (fun p => wf (json_load (snd p)) = true) l ->
  wf (JObj acc) = true ->
  wf (JObj (add_members json_load l acc)) = true.
Proof.
  induction l as [| [k d] l IH]; intros acc Hl Hacc; [assumption |].
  inversion Hl; subst. simpl add_members. apply IH; [assumption |].
  now apply wf_dict_set.
Qed.

(** What [json.load] returns respects the invariant. *)
Lemma wf_json_load d : wf (json_load d) = true.
Proof.
  induction d as [| b | z | s | l IH | l IH] using doc_ind2; try reflexivity.
  - simpl. induction IH; simpl; [reflexivity |]. now rewrite H, IHIH.
  - simpl json_load. apply wf_add_members; [assumption | reflexivity].
Qed.

Lemma assoc_app_none k l l' :
  assoc k l = None -> assoc k (l ++ l') = assoc k l'.
Proof.
  induction l as [| [k' v'] l IH]; simpl; [reflexivity |].
  destruct (String.eqb k k'); [discriminate | assumption].
Qed.

Lemma add_members_dump l : forall acc,
  Forall (fun p => json_load (json_dump (snd p)) = snd p) l ->
  unique (map fst l) = true ->
  (forall k, In k (map fst l) -> assoc k acc = None) ->
  add_members json_load (map (fun p => (fst p, json_dump (snd p))) l) acc
  = (acc ++ l)%list.
Proof.
  induction l as [| [k v] l IH]; intros acc Hl Hu Hd; simpl.
  - now rewrite app_nil_r.
  - inversion Hl as [| ? ? Hv Hl']; subst. simpl in Hv, Hu.
    apply andb_true_iff in Hu as [Hk Hu]. apply negb_true_iff in Hk.
    rewrite Hv, dict_set_absent by (apply Hd; now left).
    rewrite IH; [now rewrite <- app_assoc | assumption | assumption |].
    intros k' Hin. rewrite assoc_app_none by (apply Hd; now right).
    simpl. destruct (String.eqb_spec k' k) as [-> | _]; [| reflexivity].
    assert (existsb (String.eqb k) (map fst l) = true) as Hex.
    { apply existsb_exists. exists k. split; [assumption | apply String.eqb_refl]. }
    congruence.
Qed.

(** Reading back what was written gives the value that was written. *)
Lemma json_load_dump v : wf v = true -> json_load (json_dump v) = v.
Proof.
  induction v as [| b | z | s | l IH | l IH] using json_ind2; try reflexivity.
  - simpl. intro Hwf. f_equal. rewrite map_map.
    induction IH as [| x l Hx Hl IHl]; simpl; [reflexivity |].
    simpl in Hwf. apply andb_true_iff in Hwf as [H1 H2].
    now rewrite Hx, IHl.
  - simpl. intro Hwf. apply andb_true_iff in Hwf as [Hu Hl]. f_equal.
    rewrite add_members_dump; [reflexivity | | assumption | reflexivity].
    clear Hu. induction IH as [| x l Hx _ IHl]; constructor.
    + simpl in Hl. apply andb_true_iff in Hl as [H1 _]. now apply Hx.
    + simpl in Hl. apply andb_true_iff in Hl as [_ H2]. now apply IHl.
Qed.

(* ===================================================================== *)
(** ** [update_json_data] *)
(* ===================================================================== *)

Lemma wf_assoc k l x : wf (JObj l) = true -> assoc k l = Some x -> wf x = true.
Proof.
  simpl. intro H. apply andb_true_iff in H as [_ H].
  induction l as [| [k' v'] l IH]; simpl; [discriminate |].
  simpl in H. apply andb_true_iff in H as [H1 H2].
  destruct (String.eqb k k'); [congruence | now apply IH].
Qed.

(** C8.  When the registry in the file has no entry for the source,
    [update_json_data] reports it ([NotInJsonFile], l.121) and returns
    without opening the file for writing: the file is as before. *)
Theorem update_json_data_absent (E : env) (c : string) (v : json) (w : world)
    (d : doc) (items : list (string * json)) :
  disk w = Document d ->
  json_load d = JObj items ->
  assoc c items = None ->
  open_fault E (opens w) = None ->
  update_json_data E c v w = (inr tt, add_line (NotInJsonFile c) (count_open w)) /\
  disk (snd (update_json_data E c v w)) = disk w /\
  opens (snd (update_json_data E c v w)) = S (opens w).
Proof.
  intros Hd Hl Ha Ho.
  assert (update_json_data E c v w
          = (inr tt, add_line (NotInJsonFile c) (count_open w))) as H.
  { unfold update_json_data. unfold_py. unfold open_and_load.
    rewrite Ho, Hd, Hl. simpl. now rewrite Ha. }
  rewrite H. now repeat split.
Qed.

Lemma update_json_data_absent_witness :
  update_json_data healthy "UCzzz" (JStr "vid2")
    (start (Document (DObj [("UCabc", DObj [("latestVideoId", DStr "vid1")])])))
  = (inr tt,
     add_line (NotInJsonFile "UCzzz")
       (count_open
          (start (Document (DObj [("UCabc", DObj [("latestVideoId", DStr "vid1")])]))))) /\
  disk (snd (update_json_data healthy "UCzzz" (JStr "vid2")
    (start (Document (DObj [("UCabc", DObj [("latestVideoId", DStr "vid1")])])))))
  = disk (start (Document (DObj [("UCabc", DObj [("latestVideoId", DStr "vid1")])]))) /\
  opens (snd (update_json_data healthy "UCzzz" (JStr "vid2")
    (start (Document (DObj [("UCabc", DObj [("latestVideoId", DStr "vid1")])])))))
  = S (opens (start (Document (DObj [("UCabc", DObj [("latestVideoId", DStr "vid1")])])))).
Proof.
  apply (@update_json_data_absent healthy "UCzzz" (JStr "vid2")
           (start (Document (DObj [("UCabc", DObj [("latestVideoId", DStr "vid1")])])))
           (DObj [("UCabc", DObj [("latestVideoId", DStr "vid1")])])
           [("UCabc", JObj [("latestVideoId", JStr "vid1")])]);
    reflexivity.
Defined.

(** What [update_json_data] does when the entry is there and the file can
    be read and written. *)
Lemma update_json_data_writes E c v w d items fields :
  disk w = Document d ->
  json_load d = JObj items ->
  assoc c items = Some (JObj fields) ->
  open_fault E (opens w) = None ->
  open_fault E (S (opens w)) = None ->
  write_fault E (S (opens w)) = None ->
  update_json_data E c v w =
  (inr tt,
   add_line (Updated c v)
     (set_disk
        (Document (json_dump
           (JObj (dict_set c (JObj (dict_set "latestVideoId" v fields)) items))))
        (count_open (count_open w)))).
Proof.
  intros Hd Hl Ha Ho1 Ho2 Hw.
  unfold update_json_data. unfold_py. unfold open_and_load.
  rewrite Ho1, Hd, Hl. simpl. rewrite Ha. unfold setitem2. simpl.
  rewrite Ha. simpl. unfold open_and_dump. simpl. now rewrite Ho2, Hw.
Qed.

(** C7.  When the registry in the file has an entry for the source (a
    dict, as the format wants) and the file can be read and written,
    [update_json_data] leaves in the file a registry in which that entry
    holds the new id under [latestVideoId] and keeps its other fields,
    every other entry is as before, and the sources are the same in the
    same order. *)
Theorem update_json_data_present (E : env) (c : string) (v : json) (w : world)
    (d : doc) (items fields : list (string * json)) :
  disk w = Document d ->
  json_load d = JObj items ->
  assoc c items = Some (JObj fields) ->
  wf v = true ->
  open_fault E (opens w) = None ->
  open_fault E (S (opens w)) = None ->
  write_fault E (S (opens w)) = None ->
  exists d' items' fields',
    disk (snd (update_json_data E c v w)) = Document d' /\
    json_load d' = JObj items' /\
    assoc c items' = Some (JObj fields') /\
    assoc "latestVideoId" fields' = Some v /\
    (forall f, f <> "latestVideoId" -> assoc f fields' = assoc f fields) /\
    (forall k, k <> c -> assoc k items' = assoc k items) /\
    map fst items' = map fst items /\
    stdout (snd (update_json_data E c v w)) = (stdout w ++ [Updated c v])%list.
Proof.
  intros Hd Hl Ha Hv Ho1 Ho2 Hw.
  rewrite (update_json_data_writes E c v w d items fields Hd Hl Ha Ho1 Ho2 Hw). simpl.
  assert (wf (JObj items) = true) as Hitems by (rewrite <- Hl; apply wf_json_load).
  assert (wf (JObj fields) = true) as Hfields by (eapply wf_assoc; eassumption).
  eexists _, _, _. split; [reflexivity |]. split.
  { apply (json_load_dump
             (JObj (dict_set c (JObj (dict_set "latestVideoId" v fields)) items))).
    apply wf_dict_set; [| assumption]. now apply wf_dict_set. }
  split; [apply assoc_dict_set_same |].
  split; [apply assoc_dict_set_same |].
  split; [intros f Hf; apply assoc_dict_set_other; congruence |].
  split; [intros k Hk; apply assoc_dict_set_other; congruence |].
  split; [eapply keys_dict_set_present; eassumption | reflexivity].
Qed.

Lemma update_json_data_present_witness :
  exists d' items' fields',
    disk (snd (update_json_data healthy "UCabc" (JStr "vid2")
      (start (Document (DObj [("UCabc", DObj [("latestVideoId", DStr "vid1")])])))))
      = Document d' /\
    json_load d' = JObj items' /\
    assoc "UCabc" items' = Some (JObj fields') /\
    assoc "latestVideoId" fields' = Some (JStr "vid2") /\
    (forall f, f <> "latestVideoId" ->
       assoc f fields' = assoc f [("latestVideoId", JStr "vid1")]) /\
    (forall k, k <> "UCabc" ->
       assoc k items' = assoc k [("UCabc", JObj [("latestVideoId", JStr "vid1")])]) /\
    map fst items' = map fst [("UCabc", JObj [("latestVideoId", JStr "vid1")])] /\
    stdout (snd (update_json_data healthy "UCabc" (JStr "vid2")
      (start (Document (DObj [("UCabc", DObj [("latestVideoId", DStr "vid1")])])))))
      = (stdout (start (Document (DObj [("UCabc", DObj [("latestVideoId", DStr "vid1")])])))
         ++ [Updated "UCabc" (JStr "vid2")])%list.
Proof.
  apply (@update_json_data_present healthy "UCabc" (JStr "vid2")
           (start (Document (DObj [("UCabc", DObj [("latestVideoId", DStr "vid1")])])))
           (DObj [("UCabc", DObj [("latestVideoId", DStr "vid1")])])
           [("UCabc", JObj [("latestVideoId", JStr "vid1")])]
           [("latestVideoId", JStr "vid1")]);
    reflexivity.
Defined.

(* ===================================================================== *)
(** ** A send that fails *)
(* ===================================================================== *)

(** [post_gmail] swallows the exception of a failed send: it prints it and
    returns, as after a send that worked. *)
Lemma post_gmail_failure E title url w e :
  send_error E (posts w) (gmail_server w) = Some e ->
  exists w',
    post_gmail E title url w = (inr tt, w') /\
    stdout w' = (stdout w ++ [MailFailed e])%list /\
    disk w' = disk w /\ opens w' = opens w /\ posts w' = S (posts w) /\
    requests w' = requests w.
Proof.
  unfold send_error, first_refusal, post_gmail. unfold_py. unfold_io.
  destruct w as [dk [conn tl li] so rq ob ps op]; simpl.
  repeat (split_match; simpl); intro H; try discriminate; injection H as <-;
    (eexists; split; [reflexivity |]); now repeat split.
Qed.

(** C1 (as amended).  When the decision for a source is to notify and the
    send fails with [e] (in the transport, or at the login), the loop body
    prints the failure and goes on to [update_json_data] as after a send
    that worked: with a readable and writable file that holds the source,
    the entry in the file gets the fetched id. *)
Theorem send_failure_still_updates (E : env) (c : string)
    (fields : list (string * json)) (w : world) (d : doc)
    (items file_fields : list (string * json)) (v title url : json) (e : exn) :
  fetched E c = (v, title, url) ->
  truthy v = true ->
  py_ne v (stored_id fields) = true ->
  send_error E (posts w) (gmail_server w) = Some e ->
  disk w = Document d ->
  json_load d = JObj items ->
  assoc c items = Some (JObj file_fields) ->
  wf v = true ->
  open_fault E (opens w) = None ->
  open_fault E (S (opens w)) = None ->
  write_fault E (S (opens w)) = None ->
  let w' := snd (check_channel E (c, JObj fields) w) in
  fst (check_channel E (c, JObj fields) w) = inr tt /\
  (exists ls,
     stdout w' = (stdout w ++ Fetching c :: ls ++
                  [NewVideoFound title; PreviousId (stored_id fields); NewId v;
                   MailFailed e; Updated c v; Separator])%list) /\
  (exists d' items' fields',
     disk w' = Document d' /\
     json_load d' = JObj items' /\
     assoc c items' = Some (JObj fields') /\
     assoc "latestVideoId" fields' = Some v).
Proof.
  intros Hf Ht Hne Hsend Hd Hl Ha Hv Ho1 Ho2 Hw.
  destruct (check_channel_dict E c fields) as (ls & rs & _ & Hc).
  pose (wp := add_line (NewId v) (add_line (PreviousId (stored_id fields))
                (add_line (NewVideoFound title) (log (Fetching c :: ls) rs w)))).
  destruct (@post_gmail_failure E title url wp e Hsend)
    as (w1 & Hp & Hout & Hdisk & Hopens & _).
  assert (disk w1 = Document d) as Hd1 by (rewrite Hdisk; exact Hd).
  assert (opens w1 = opens w) as Ho by (rewrite Hopens; reflexivity).
  rewrite <- Ho in Ho1, Ho2, Hw.
  pose proof (update_json_data_writes E c v w1 d items file_fields Hd1 Hl Ha Ho1 Ho2 Hw) as Hu.
  assert (check_channel E (c, JObj fields) w =
          (inr tt,
           add_line Separator
             (add_line (Updated c v)
                (set_disk
                   (Document (json_dump
                      (JObj (dict_set c
                         (JObj (dict_set "latestVideoId" v file_fields)) items))))
                   (count_open (count_open w1)))))) as Heq.
  { rewrite Hc, Hf. unfold after_fetch. rewrite Ht, Hne.
    unfold_py. fold wp. rewrite Hp, Hu. reflexivity. }
  rewrite Heq. simpl. split; [reflexivity |]. split.
  - exists ls. rewrite Hout. subst wp. simpl.
    repeat (rewrite <- app_assoc; simpl). reflexivity.
  - assert (wf (JObj items) = true) as Hitems by (rewrite <- Hl; apply wf_json_load).
    assert (wf (JObj file_fields) = true) as Hfields by (eapply wf_assoc; eassumption).
    eexists _, _, _. split; [reflexivity |]. split.
    { apply (json_load_dump
               (JObj (dict_set c (JObj (dict_set "latestVideoId" v file_fields)) items))).
      apply wf_dict_set; [| assumption]. now apply wf_dict_set. }
    split; apply assoc_dict_set_same.
Qed.

Lemma send_failure_still_updates_witness :
  let w := start (Document one_source) in
  let item := ("UCabc", JObj [("latestVideoId", JStr "vid1")]) in
  let w' := snd (check_channel lossy item w) in
  fst (check_channel lossy item w) = inr tt /\
  (exists ls,
     stdout w' = (stdout w ++ Fetching "UCabc" :: ls ++
                  [NewVideoFound (JStr "New Upload");
                   PreviousId (stored_id [("latestVideoId", JStr "vid1")]);
                   NewId (JStr "new-UCabc");
                   MailFailed SMTPServerDisconnected;
                   Updated "UCabc" (JStr "new-UCabc"); Separator])%list) /\
  (exists d' items' fields',
     disk w' = Document d' /\
     json_load d' = JObj items' /\
     assoc "UCabc" items' = Some (JObj fields') /\
     assoc "latestVideoId" fields' = Some (JStr "new-UCabc")).
Proof.
  apply (@send_failure_still_updates lossy "UCabc" [("latestVideoId", JStr "vid1")]
           (start (Document one_source)) one_source
           [("UCabc", JObj [("latestVideoId", JStr "vid1")])]
           [("latestVideoId", JStr "vid1")]
           (JStr "new-UCabc") (JStr "New Upload")
           (JStr "https://www.youtube.com/watch?v=new-UCabc")
           SMTPServerDisconnected);
    reflexivity.
Defined.

(** C1 as stated fails.  The registry holds ["vid1"] for the one source,
    the API reports a new upload, and the connection is lost while the mail
    is transmitted: the failure is printed, no mail was accepted, and the
    file holds the new id all the same.  The next run, with the same
    answer from the API, finds nothing new and calls [post_gmail] not once. *)
Lemma send_failure_loses_the_item :
  let w1 := snd (main lossy (start (Document one_source))) in
  let w2 := snd (main lossy (start (disk w1))) in
  stdout w1 = [Fetching "UCabc"; NewVideoFound (JStr "New Upload");
               PreviousId (JStr "vid1"); NewId (JStr "new-UCabc");
               MailFailed SMTPServerDisconnected;
               Updated "UCabc" (JStr "new-UCabc"); Separator] /\
  outbox w1 = [] /\
  disk w1 = Document (DObj [("UCabc", DObj [("latestVideoId", DStr "new-UCabc")])]) /\
  stdout w2 = [Fetching "UCabc"; NoNewVideo "UCabc"; Separator] /\
  posts w2 = 0.
Proof. vm_compute. repeat split. Qed.

(* ===================================================================== *)
(** ** Errors never end the run *)
(* ===================================================================== *)

Lemma after_fetch_requests E c stored r w :
  requests (snd (after_fetch E c stored r w)) = requests w.
Proof.
  destruct r as [[v t] u]. unfold after_fetch.
  destruct (truthy v); [destruct (py_ne v stored) |]; unfold_py; simpl; auto.
  match goal with |- context [post_gmail E t u ?w0] =>
    destruct (post_gmail_frame E t u w0) as (Hp & _ & _ & Hr & _);
    destruct (post_gmail E t u w0) as [rp wp] end.
  simpl in Hp, Hr. subst rp.
  destruct (update_json_data_frame E c v wp) as (Hu & _ & _ & _ & Hr').
  destruct (update_json_data E c v wp) as [ru wu]. simpl in Hu, Hr'. subst ru.
  simpl. congruence.
Qed.

(** The loop body on a dict entry returns, having asked the API once
    about the channel. *)
Lemma check_channel_fetches E c fields w :
  fst (check_channel E (c, JObj fields) w) = inr tt /\
  channel_requests (requests (snd (check_channel E (c, JObj fields) w)))
  = (channel_requests (requests w) ++ [c])%list.
Proof.
  destruct (check_channel_dict E c fields) as (ls & rs & Hrs & Hc).
  rewrite Hc. split; [apply after_fetch_returns |].
  rewrite after_fetch_requests. simpl. now rewrite channel_requests_app, Hrs.
Qed.

Lemma for_each_fetches E items : forall w,
  Forall (fun p => exists fields, snd p = JObj fields) items ->
  fst (for_each E items w) = inr tt /\
  channel_requests (requests (snd (for_each E items w)))
  = (channel_requests (requests w) ++ map fst items)%list.
Proof.
  induction items as [| [c data] items IH]; intros w Hall.
  - simpl. now rewrite app_nil_r.
  - inversion Hall as [| ? ? (fields & Hdata) Hrest]; subst. simpl in Hdata. subst data.
    destruct (check_channel_fetches E c fields w) as (Hr & Hq).
    change (for_each E ((c, JObj fields) :: items))
      with (bind (check_channel E (c, JObj fields)) (fun _ => for_each E items)).
    unfold bind. destruct (check_channel E (c, JObj fields) w) as [r w1].
    simpl in Hr, Hq. subst r.
    destruct (IH w1 Hrest) as (Hr1 & Hq1). split; [exact Hr1 |].
    rewrite Hq1, Hq, <- app_assoc. reflexivity.
Qed.

(** With a readable registry the run is the loop over its items. *)
Lemma main_loads E w d items :
  disk w = Document d ->
  json_load d = JObj items ->
  open_fault E (opens w) = None ->
  main E w = for_each E items (count_open w).
Proof.
  intros Hd Hl Ho. unfold main, bind, open_and_load, eval.
  now rewrite Ho, Hd, Hl.
Qed.

(** C2 as stated fails.  With two sources, the API answers the request
    for the first with HTTP 403; the second is fetched all the same.  So
    it is when the server rejects the login of the first send. *)
Lemma authorization_error_does_not_abort :
  let w1 := snd (main (failing_for "UCabc" 403) (start (Document two_sources))) in
  let w2 := snd (main bad_login (start (Document two_sources))) in
  stdout w1 = [Fetching "UCabc"; ErrorOccurred (HttpError 403);
               FetchFailed "UCabc"; Separator;
               Fetching "UCdef"; NewVideoFound (JStr "New Upload");
               PreviousId (JStr "vid9"); NewId (JStr "new-UCdef"); MailSent;
               Updated "UCdef" (JStr "new-UCdef"); Separator] /\
  requests w1 = [ChannelsList "UCabc"; ChannelsList "UCdef";
                 PlaylistItemsList (JStr "UUUCdef")] /\
  stdout w2 = [Fetching "UCabc"; NewVideoFound (JStr "New Upload");
               PreviousId (JStr "vid1"); NewId (JStr "new-UCabc");
               MailFailed SMTPAuthenticationError;
               Updated "UCabc" (JStr "new-UCabc"); Separator;
               Fetching "UCdef"; NewVideoFound (JStr "New Upload");
               PreviousId (JStr "vid9"); NewId (JStr "new-UCdef");
               MailFailed SMTPAuthenticationError;
               Updated "UCdef" (JStr "new-UCdef"); Separator] /\
  requests w2 = [ChannelsList "UCabc"; PlaylistItemsList (JStr "UUUCabc");
                 ChannelsList "UCdef"; PlaylistItemsList (JStr "UUUCdef")].
Proof. vm_compute. repeat split. Qed.

(* ===================================================================== *)
(** ** One connection for the whole run *)
(* ===================================================================== *)

(** On a closed connection [post_gmail] sends nothing, whatever the
    server would answer. *)
Lemma post_gmail_closed E title url w :
  connected (gmail_server w) = false ->
  post_gmail E title url w
  = (inr tt, add_line (MailFailed SMTPServerDisconnected) (count_post w)).
Proof.
  intro H. unfold post_gmail. unfold_py. unfold_io. simpl. now rewrite H.
Qed.

(** A send that worked has closed the connection of the module. *)
Lemma post_gmail_sent_closes E title url w :
  In MailSent (skipn (length (stdout w)) (stdout (snd (post_gmail E title url w)))) ->
  connected (gmail_server (snd (post_gmail E title url w))) = false.
Proof.
  unfold post_gmail. unfold_py. unfold_io.
  destruct w as [dk [conn tl li] so rq ob ps op]; simpl.
  repeat (split_match; simpl); rewrite skipn_app, skipn_all, Nat.sub_diag; simpl;
    intros [H | []]; try discriminate; reflexivity.
Qed.

(** So after a send that worked, every later send of the run fails. *)
Lemma post_gmail_after_sent E title url title' url' w w' :
  In MailSent (skipn (length (stdout w)) (stdout (snd (post_gmail E title url w)))) ->
  gmail_server w' = gmail_server (snd (post_gmail E title url w)) ->
  post_gmail E title' url' w'
  = (inr tt, add_line (MailFailed SMTPServerDisconnected) (count_post w')).
Proof.
  intros Hsent Hserver. apply post_gmail_closed. rewrite Hserver.
  now apply post_gmail_sent_closes.
Qed.

(** C5 fails on the script.  [gmail_server] is connected once, when the
    module is loaded (l.37), and every call of [post_gmail] uses it.  With
    two sources that both have a new upload and a server that accepts
    every command, the first send ends with [quit()] and the second one
    raises [SMTPServerDisconnected]: one mail leaves, both entries are
    updated.  And when the connection is lost during the first send, the
    second send fails as well although the network is back. *)
Theorem one_connection_for_all_sends :
  let w1 := snd (main healthy (start (Document two_sources))) in
  let w2 := snd (main lossy_once (start (Document two_sources))) in
  (stdout w1 = [Fetching "UCabc"; NewVideoFound (JStr "New Upload");
                PreviousId (JStr "vid1"); NewId (JStr "new-UCabc"); MailSent;
                Updated "UCabc" (JStr "new-UCabc"); Separator;
                Fetching "UCdef"; NewVideoFound (JStr "New Upload");
                PreviousId (JStr "vid9"); NewId (JStr "new-UCdef");
                MailFailed SMTPServerDisconnected;
                Updated "UCdef" (JStr "new-UCdef"); Separator] /\
   posts w1 = 2 /\ length (outbox w1) = 1 /\
   disk w1 = Document (DObj [("UCabc", DObj [("latestVideoId", DStr "new-UCabc")]);
                             ("UCdef", DObj [("latestVideoId", DStr "new-UCdef")])])) /\
  (stdout w2 = [Fetching "UCabc"; NewVideoFound (JStr "New Upload");
                PreviousId (JStr "vid1"); NewId (JStr "new-UCabc");
                MailFailed SMTPServerDisconnected;
                Updated "UCabc" (JStr "new-UCabc"); Separator;
                Fetching "UCdef"; NewVideoFound (JStr "New Upload");
                PreviousId (JStr "vid9"); NewId (JStr "new-UCdef");
                MailFailed SMTPServerDisconnected;
                Updated "UCdef" (JStr "new-UCdef"); Separator] /\
   posts w2 = 2 /\ outbox w2 = []).
Proof. vm_compute. repeat split. Qed.

(* ===================================================================== *)
(** ** Reading a document and writing it back *)
(* ===================================================================== *)

Lemma last_member_in k l d : last_member k l = Some d -> In (k, d) l.
Proof.
  induction l as [| [k' v'] l IH]; simpl; [discriminate |].
  destruct (last_member k l) as [x |].
  - intro H. injection H as <-. right. now apply IH.
  - destruct (String.eqb_spec k k') as [-> | _]; [| discriminate].
    intro H. injection H as <-. now left.
Qed.

(** The dict that [json.load] builds gives a name the value of its last
    member. *)
Lemma assoc_add_members (load : doc -> json) k l : forall acc,
  assoc k (add_members load l acc)
  = match last_member k l with
    | Some d => Some (load d)
    | None => assoc k acc
    end.
Proof.
  induction l as [| [k' v'] l IH]; intro acc; simpl; [reflexivity |].
  rewrite IH. destruct (last_member k l) as [x |]; [reflexivity |].
  destruct (String.eqb_spec k k') as [-> | Hne].
  - apply assoc_dict_set_same.
  - apply assoc_dict_set_other. congruence.
Qed.

(** In what [json.dump] writes for a dict, the last member of a name is
    the item of that name. *)
Lemma last_member_dump k m :
  unique (map fst m) = true ->
  last_member k (map (fun p => (fst p, json_dump (snd p))) m)
  = option_map json_dump (assoc k m).
Proof.
  induction m as [| [k' v'] m IH]; simpl; [reflexivity |].
  intro Hu. apply andb_true_iff in Hu as [Hk Hu]. apply negb_true_iff in Hk.
  rewrite (IH Hu). destruct (String.eqb_spec k k') as [-> | Hne].
  - apply not_in_keys_assoc in Hk. now rewrite Hk.
  - now destruct (assoc k m).
Qed.

Lemma json_load_dump_same_structure (d : doc) :
  same_structure (json_dump (json_load d)) d.
Proof.
  induction d as [| b | z | s | l IH | l IH] using doc_ind2;
    try (simpl; constructor).
  - rewrite map_map. induction IH; constructor; assumption.
  - intro k.
    assert (wf (json_load (DObj l)) = true) as Hwf by apply wf_json_load.
    simpl in Hwf. apply andb_true_iff in Hwf as [Hu _].
    rewrite (last_member_dump k _ Hu), assoc_add_members. simpl assoc.
    destruct (last_member k l) as [x |] eqn:Hx; simpl; constructor.
    apply last_member_in in Hx. rewrite Forall_forall in IH.
    apply (IH (k, x) Hx).
Qed.

(** The relation tells documents apart: a repeated name is written back
    once, with its last value, and a changed value is another structure. *)
Lemma same_structure_examples :
  json_dump (json_load repeated_name) = DObj [("a", DNum 3); ("b", DNum 2)] /\
  same_structure (DObj [("b", DNum 2); ("a", DNum 3)]) repeated_name /\
  ~ same_structure (DObj [("a", DNum 1); ("b", DNum 2)]) repeated_name.
Proof.
  split; [reflexivity |]. split.
  - constructor. intro k. simpl.
    destruct (String.eqb k "a") eqn:Ha, (String.eqb k "b") eqn:Hb;
      repeat constructor.
  - intro H. inversion H as [| | | | | l l' Hk]; subst.
    specialize (Hk "a"). simpl in Hk. inversion Hk as [| x y Hxy]; subst.
    inversion Hxy.
Qed.

(** C9.  Loading the file and writing back the value that was loaded, as
    [update_json_data] does around its assignment (l.108-117), leaves a
    document with the same semantic structure as the one that was there,
    up to the order of the members of its objects. *)
Theorem load_then_dump_round_trip (E : env) (w : world) (d : doc) :
  disk w = Document d ->
  open_fault E (opens w) = None ->
  open_fault E (S (opens w)) = None ->
  write_fault E (S (opens w)) = None ->
  exists d',
    disk (snd ((json_data <- open_and_load E ;; open_and_dump E json_data) w))
    = Document d' /\
    same_structure d' d.
Proof.
  intros Hd Ho1 Ho2 Hw. exists (json_dump (json_load d)).
  split; [| apply json_load_dump_same_structure].
  unfold bind, open_and_load, open_and_dump. rewrite Ho1, Hd. simpl.
  now rewrite Ho2, Hw.
Qed.

Lemma load_then_dump_round_trip_witness :
  exists d',
    disk (snd ((json_data <- open_and_load healthy ;; open_and_dump healthy json_data)
                 (start (Document repeated_name))))
    = Document d' /\
    same_structure d' repeated_name.
Proof.
  apply (@load_then_dump_round_trip healthy (start (Document repeated_name))
           repeated_name); reflexivity.
Defined.

(* ===================================================================== *)
(** ** Two runs in a row *)
(* ===================================================================== *)

Lemma assoc_in_unique k v l :
  unique (map fst l) = true -> In (k, v) l -> assoc k l = Some v.
Proof.
  induction l as [| [k' v'] l IH]; simpl; [contradiction |].
  intros Hu [Heq | Hin].
  - injection Heq as -> ->. now rewrite String.eqb_refl.
  - apply andb_true_iff in Hu as [Hk Hu]. apply negb_true_iff in Hk.
    destruct (String.eqb_spec k k') as [-> | _]; [| now apply IH].
    assert (existsb (String.eqb k') (map fst l) = true) as Hex.
    { apply existsb_exists. exists k'. split; [| apply String.eqb_refl].
      apply (in_map fst l (k', v) Hin). }
    congruence.
Qed.

Lemma all2_refl l :
  Forall (fun x => py_eq x x = true) l -> all2 py_eq l l = true.
Proof. induction 1 as [| x l Hx _ IH]; simpl; [reflexivity | now rewrite Hx, IH]. Qed.

Lemma included_refl ys xs :
  (forall k v, In (k, v) xs -> assoc k ys = Some v) ->
  Forall (fun p => py_eq (snd p) (snd p) = true) xs ->
  included py_eq ys xs = true.
Proof.
  intros Hin Hall. induction Hall as [| [k v] xs Hx _ IH]; simpl; [reflexivity |].
  rewrite (Hin k v) by now left. simpl in Hx. rewrite Hx. simpl.
  apply IH. intros k' v' H. apply Hin. now right.
Qed.

(** A Python value of this model equals itself. *)
Lemma py_eq_refl v : wf v = true -> py_eq v v = true.
Proof.
  induction v as [| b | z | s | l IH | l IH] using json_ind2; simpl; intro Hwf.
  - reflexivity.
  - apply Bool.eqb_reflx.
  - apply Z.eqb_refl.
  - apply String.eqb_refl.
  - apply all2_refl. induction IH as [| x l Hx _ IHl]; constructor.
    + simpl in Hwf. apply andb_true_iff in Hwf as [H1 _]. now apply Hx.
    + simpl in Hwf. apply andb_true_iff in Hwf as [_ H2]. now apply IHl.
  - apply andb_true_iff in Hwf as [Hu Hl]. rewrite Nat.eqb_refl. simpl.
    apply included_refl.
    + intros k v. now apply assoc_in_unique.
    + clear Hu. induction IH as [| x l Hx _ IHl]; constructor.
      * simpl in Hl. apply andb_true_iff in Hl as [H1 _]. now apply Hx.
      * simpl in Hl. apply andb_true_iff in Hl as [_ H2]. now apply IHl.
Qed.

Lemma assoc_middle c y pre suf :
  assoc c pre = None -> assoc c (pre ++ (c, y) :: suf) = Some y.
Proof.
  intro H. rewrite (assoc_app_none c pre _ H). simpl. now rewrite String.eqb_refl.
Qed.

Lemma dict_set_middle c x y pre suf :
  assoc c pre = None ->
  dict_set c x (pre ++ (c, y) :: suf) = (pre ++ (c, x) :: suf)%list.
Proof.
  induction pre as [| [k v] pre IH]; simpl.
  - now rewrite String.eqb_refl.
  - destruct (String.eqb_spec c k); [discriminate |]. intro H. now rewrite IH.
Qed.

Lemma unique_middle c y pre suf :
  unique (map fst (pre ++ (c, y) :: suf)) = true -> assoc c pre = None.
Proof.
  induction pre as [| [k v] pre IH]; simpl; [reflexivity |].
  intro H. apply andb_true_iff in H as [Hk Hu]. apply negb_true_iff in Hk.
  destruct (String.eqb_spec c k) as [-> | _]; [| now apply IH].
  rewrite map_app, existsb_app in Hk. simpl in Hk.
  rewrite String.eqb_refl, orb_true_r in Hk. discriminate.
Qed.

(** A run that completes met only dict entries. *)
Lemma for_each_completes_dicts E items : forall w,
  fst (for_each E items w) = inr tt ->
  Forall (fun p => exists fields, snd p = JObj fields) items.
Proof.
  induction items as [| [c data] items IH]; intros w H; constructor.
  - destruct data as [| | | | | fields]; try discriminate H. now exists fields.
  - destruct data as [| | | | | fields]; try discriminate H.
    change (for_each E ((c, JObj fields) :: items))
      with (bind (check_channel E (c, JObj fields)) (fun _ => for_each E items)) in H.
    unfold bind in H.
    destruct (check_channel E (c, JObj fields) w) as [[e | []] w1];
      [discriminate | now apply (IH w1)].
Qed.

(** The loop body when the file takes every write: the entry of the
    source in the file becomes what [notified_entry] says. *)
Lemma check_channel_persists E c fields w dd pre suf :
  (forall n, open_fault E n = None) ->
  (forall n, write_fault E n = None) ->
  disk w = Document dd ->
  json_load dd = JObj (pre ++ (c, JObj fields) :: suf) ->
  wf (video_id_of (fetched E c)) = true ->
  exists w' dd',
    check_channel E (c, JObj fields) w = (inr tt, w') /\
    disk w' = Document dd' /\
    json_load dd' = JObj (pre ++ notified_entry E (c, JObj fields) :: suf).
Proof.
  intros Ho Hw Hd Hl Hv.
  assert (wf (JObj (pre ++ (c, JObj fields) :: suf)) = true) as Hreg
    by (rewrite <- Hl; apply wf_json_load).
  assert (assoc c pre = None) as Hpre.
  { simpl in Hreg. apply andb_true_iff in Hreg as [Hu _].
    now apply unique_middle in Hu. }
  destruct (check_channel_dict E c fields) as (ls & rs & _ & Hc).
  rewrite Hc. unfold notified_entry, notifies, after_fetch.
  destruct (fetched E c) as [[v t] u] eqn:Hf. unfold video_id_of in *. simpl in Hv |- *.
  destruct (truthy v); simpl;
    [destruct (py_ne v (stored_id fields)); simpl |];
    try (unfold_py; simpl; eexists _, dd; repeat split; assumption).
  unfold_py.
  match goal with |- context [post_gmail E t u ?w0] =>
    destruct (post_gmail_frame E t u w0) as (Hp & _ & Hdisk & _ & _);
    destruct (post_gmail E t u w0) as [rp w1] end.
  simpl in Hp, Hdisk. subst rp.
  assert (disk w1 = Document dd) as Hd1 by (rewrite Hdisk; exact Hd).
  rewrite (update_json_data_writes E c v w1 dd _ fields Hd1 Hl
             (assoc_middle c (JObj fields) pre suf Hpre) (Ho _) (Ho _) (Hw _)).
  eexists _, _. split; [reflexivity |]. split; [reflexivity |].
  rewrite (dict_set_middle c _ (JObj fields) pre suf Hpre).
  apply (json_load_dump (JObj (pre ++ (c, JObj (dict_set "latestVideoId" v fields)) :: suf))).
  rewrite <- (dict_set_middle c (JObj (dict_set "latestVideoId" v fields))
                (JObj fields) pre suf Hpre).
  apply wf_dict_set; [| assumption]. apply wf_dict_set; [assumption |].
  apply (wf_assoc c _ _ Hreg). now apply assoc_middle.
Qed.

(** The loop when the file takes every write: the registry in the file
    ends as [notified_entry] says, entry by entry. *)
Lemma for_each_persists E :
  (forall n, open_fault E n = None) ->
  (forall n, write_fault E n = None) ->
  forall suf pre w dd,
    disk w = Document dd ->
    json_load dd = JObj (pre ++ suf) ->
    Forall (fun p => exists fields, snd p = JObj fields) suf ->
    Forall (fun p => wf (video_id_of (fetched E (fst p))) = true) suf ->
    exists w' dd',
      for_each E suf w = (inr tt, w') /\
      disk w' = Document dd' /\
      json_load dd' = JObj (pre ++ map (notified_entry E) suf).
Proof.
  intros Ho Hw. induction suf as [| [c data] suf IH]; intros pre w dd Hd Hl Hdict Hwf.
  - exists w, dd. now repeat split.
  - inversion Hdict as [| ? ? (fields & Hdata) Hdict']; subst.
    inversion Hwf as [| ? ? Hv Hwf']; subst. simpl in Hdata, Hv. subst data.
    destruct (check_channel_persists E c fields w dd pre suf Ho Hw Hd Hl Hv)
      as (w1 & dd1 & Hc & Hd1 & Hl1).
    destruct (IH (pre ++ [notified_entry E (c, JObj fields)])%list w1 dd1 Hd1)
      as (w2 & dd2 & Hf & Hd2 & Hl2); try assumption.
    { now rewrite <- app_assoc. }
    exists w2, dd2. split; [| split; [assumption |]].
    + change (for_each E ((c, JObj fields) :: suf))
        with (bind (check_channel E (c, JObj fields)) (fun _ => for_each E suf)).
      unfold bind. now rewrite Hc.
    + rewrite Hl2, <- app_assoc. reflexivity.
Qed.

(** The loop body on an entry that the earlier run left, with the same
    fetched id: nothing is new, [post_gmail] is not called. *)
Lemma check_channel_nothing_new E1 E2 c data w :
  video_id_of (fetched E2 c) = video_id_of (fetched E1 c) ->
  wf (video_id_of (fetched E1 c)) = true ->
  posts (snd (check_channel E2 (notified_entry E1 (c, data)) w)) = posts w /\
  outbox (snd (check_channel E2 (notified_entry E1 (c, data)) w)) = outbox w.
Proof.
  intros Hsame Hwf.
  destruct data as [| b | z | s | l | fields];
    try (simpl notified_entry; rewrite check_channel_not_dict;
         [now split | intros fields; discriminate]).
  assert (exists fields',
            notified_entry E1 (c, JObj fields) = (c, JObj fields') /\
            (truthy (video_id_of (fetched E1 c)) = true ->
             py_ne (video_id_of (fetched E1 c)) (stored_id fields') = false))
    as (fields' & Hentry & Hstored).
  { unfold notified_entry, notifies.
    destruct (truthy (video_id_of (fetched E1 c))) eqn:Ht; simpl.
    - destruct (py_ne (video_id_of (fetched E1 c)) (stored_id fields)) eqn:Hne.
      + eexists; split; [reflexivity |]. intros _.
        unfold stored_id. rewrite assoc_dict_set_same. unfold py_ne.
        now rewrite py_eq_refl.
      + eexists; split; [reflexivity |]. now intros _.
    - eexists; split; [reflexivity |]. discriminate. }
  rewrite Hentry.
  destruct (check_channel_dict E2 c fields') as (ls & rs & _ & Hc).
  rewrite Hc. unfold after_fetch.
  destruct (fetched E2 c) as [[v t] u] eqn:Hf. unfold video_id_of in *.
  simpl in Hsame. subst v.
  destruct (truthy (fst (fst (fetched E1 c)))) eqn:Ht.
  - rewrite (Hstored eq_refl). unfold_py. simpl. now split.
  - unfold_py. simpl. now split.
Qed.

Lemma for_each_nothing_new E1 E2 items : forall w,
  Forall (fun p =>
            video_id_of (fetched E2 (fst p)) = video_id_of (fetched E1 (fst p)) /\
            wf (video_id_of (fetched E1 (fst p))) = true) items ->
  posts (snd (for_each E2 (map (notified_entry E1) items) w)) = posts w /\
  outbox (snd (for_each E2 (map (notified_entry E1) items) w)) = outbox w.
Proof.
  induction items as [| [c data] items IH]; intros w Hall; [now split |].
  inversion Hall as [| ? ? (Hsame & Hwf) Hall']; subst. simpl in Hsame, Hwf.
  destruct (check_channel_nothing_new E1 E2 c data w Hsame Hwf) as (Hp & Hb).
  change (for_each E2 (map (notified_entry E1) ((c, data) :: items)))
    with (bind (check_channel E2 (notified_entry E1 (c, data)))
               (fun _ => for_each E2 (map (notified_entry E1) items))).
  unfold bind.
  destruct (check_channel E2 (notified_entry E1 (c, data)) w) as [[e | []] w1];
    simpl in Hp, Hb |- *; [now split |].
  destruct (IH w1 Hall') as (Hp1 & Hb1). split; congruence.
Qed.

(** C6.  A first run completes and the file takes all its writes; a
    second run starts from the file that the first one left, and for every
    source of the registry the fetch gives the id that it gave in the first
    run.  Then the second run calls [post_gmail] not once, and no mail
    leaves.  (The ids are Python values: their dicts have distinct keys.) *)
Theorem second_run_sends_nothing (E1 E2 : env) (w1 w2 : world) (d : doc)
    (items : list (string * json)) :
  disk w1 = Document d ->
  json_load d = JObj items ->
  fst (main E1 w1) = inr tt ->
  (forall n, open_fault E1 n = None) ->
  (forall n, write_fault E1 n = None) ->
  disk w2 = disk (snd (main E1 w1)) ->
  (forall c, In c (map fst items) ->
     video_id_of (fetched E2 c) = video_id_of (fetched E1 c)) ->
  (forall c, In c (map fst items) -> wf (video_id_of (fetched E1 c)) = true) ->
  posts (snd (main E2 w2)) = posts w2 /\
  outbox (snd (main E2 w2)) = outbox w2.
Proof.
  intros Hd Hl Hdone Ho Hw Hd2 Hsame Hwf.
  rewrite (main_loads E1 w1 d items Hd Hl (Ho _)) in Hdone, Hd2.
  pose proof (for_each_completes_dicts E1 items _ Hdone) as Hdicts.
  destruct (for_each_persists E1 Ho Hw items [] (count_open w1) d Hd Hl Hdicts)
    as (w1' & d' & Hrun & Hd' & Hl').
  { apply Forall_forall. intros p Hp. apply Hwf. now apply in_map. }
  rewrite Hrun in Hd2. simpl in Hd2, Hl'. rewrite Hd' in Hd2.
  destruct (open_fault E2 (opens w2)) as [e |] eqn:Ho2.
  - unfold main, bind, open_and_load. rewrite Ho2. now split.
  - rewrite (main_loads E2 w2 d' _ Hd2 Hl' Ho2).
    apply (for_each_nothing_new E1 E2 items (count_open w2)).
    apply Forall_forall. intros p Hp. split.
    + apply Hsame. now apply in_map.
    + apply Hwf. now apply in_map.
Qed.

Lemma second_run_sends_nothing_witness :
  posts (snd (main healthy
                (start (disk (snd (main healthy (start (Document two_sources))))))))
  = posts (start (disk (snd (main healthy (start (Document two_sources)))))) /\
  outbox (snd (main healthy
                 (start (disk (snd (main healthy (start (Document two_sources))))))))
  = outbox (start (disk (snd (main healthy (start (Document two_sources)))))).
Proof.
  apply (@second_run_sends_nothing healthy healthy
           (start (Document two_sources))
           (start (disk (snd (main healthy (start (Document two_sources))))))
           two_sources
           [("UCabc", JObj [("latestVideoId", JStr "vid1")]);
            ("UCdef", JObj [("latestVideoId", JStr "vid9")])]).
  - reflexivity.
  - reflexivity.
  - vm_compute. reflexivity.
  - intro n. reflexivity.
  - intro n. reflexivity.
  - vm_compute. reflexivity.
  - intros c _. reflexivity.
  - intros c [<- | [<- | []]]; vm_compute; reflexivity.
Defined.

(* ===================================================================== *)
(** ** More on [fetch_latest_video] *)
(* ===================================================================== *)

(** X1.  When the channel request names an uploads playlist and the
    playlist response has a first item with a [videoId] and a [title],
    [fetch_latest_video] returns that id, that title and the watch url of
    the id, after exactly the two requests and without printing. *)
Theorem fetch_latest_video_returns_item (E : env) (c : string)
    (uploads response items item snippet resource v t : json) (w : world) :
  resolves E c uploads ->
  playlist_items_list E c uploads = inr response ->
  getitem response "items" = inr items ->
  truthy items = true ->
  getitem0 items = inr item ->
  getitem item "snippet" = inr snippet ->
  getitem snippet "resourceId" = inr resource ->
  getitem resource "videoId" = inr v ->
  getitem snippet "title" = inr t ->
  fetch_latest_video E c w
  = (inr (v, t, JStr (watch_url ++ py_str (repr E) v)),
     log [] [ChannelsList c; PlaylistItemsList uploads] w).
Proof.
  intros (r0 & i0 & f0 & d0 & rel & H1 & H2 & H3 & H4 & H5 & H6 & H7)
    Hr Hi Ht H0 Hs Hres Hv Htitle.
  unfold fetch_latest_video. unfold_py.
  rewrite H1, H2, H3. simpl. rewrite H4, H5, H6, H7, Hr, Hi, Ht, H0, Hs, Hres, Hv, Htitle.
  f_equal. unfold log, add_request; simpl. now rewrite <- app_assoc, app_nil_r.
Qed.

Lemma fetch_latest_video_returns_item_witness :
  fetch_latest_video healthy "UCabc" (start Missing)
  = (inr (JStr "new-UCabc", JStr "New Upload",
          JStr (watch_url ++ py_str (repr healthy) (JStr "new-UCabc"))),
     log [] [ChannelsList "UCabc"; PlaylistItemsList (JStr "UUUCabc")] (start Missing)).
Proof.
  apply (@fetch_latest_video_returns_item healthy "UCabc" (JStr "UUUCabc")
           (playlist_response (JStr "new-UCabc") (JStr "New Upload"))
           (JArr [JObj [("snippet",
              JObj [("resourceId", JObj [("videoId", JStr "new-UCabc")]);
                    ("title", JStr "New Upload")])]])
           (JObj [("snippet",
              JObj [("resourceId", JObj [("videoId", JStr "new-UCabc")]);
                    ("title", JStr "New Upload")])])
           (JObj [("resourceId", JObj [("videoId", JStr "new-UCabc")]);
                  ("title", JStr "New Upload")])
           (JObj [("videoId", JStr "new-UCabc")])
           (JStr "new-UCabc") (JStr "New Upload") (start Missing));
    try reflexivity.
  unfold resolves. repeat eexists; reflexivity.
Defined.

(** X2.  [fetch_latest_video] leaves the file, the SMTP connection, the
    mails and the counters alone.  It asks for the channel first and for
    at most one playlist after it, and prints at most one line. *)
Theorem fetch_latest_video_only_asks (E : env) (c : string) (w : world) :
  let w' := snd (fetch_latest_video E c w) in
  disk w' = disk w /\ gmail_server w' = gmail_server w /\
  outbox w' = outbox w /\ posts w' = posts w /\ opens w' = opens w /\
  (requests w' = (requests w ++ [ChannelsList c])%list \/
   exists p, requests w' = (requests w ++ [ChannelsList c; PlaylistItemsList p])%list) /\
  (stdout w' = stdout w \/ exists l, stdout w' = (stdout w ++ [l])%list).
Proof.
  unfold fetch_latest_video. unfold_py.
  repeat (split_match; simpl); unfold add_line, add_request; simpl;
    repeat split;
    rewrite <- ?app_assoc; simpl;
    try (left; reflexivity);
    try (right; eexists; reflexivity).
Qed.

(** X3.  A channel response that is a dict without the key ["items"]
    makes l.61 raise [KeyError]: the function prints it, returns
    [(None, None, None)] and makes no playlist request. *)
Theorem fetch_latest_video_no_items_key (E : env) (c : string)
    (members : list (string * json)) (w : world) :
  channels_list E c = inr (JObj members) ->
  assoc "items" members = None ->
  fetch_latest_video E c w
  = (inr none3, log [ErrorOccurred (KeyError (JStr "items"))] [ChannelsList c] w).
Proof.
  intros Hr Hk. unfold fetch_latest_video. unfold_py.
  rewrite Hr. simpl. now rewrite Hk.
Qed.

Lemma fetch_latest_video_no_items_key_witness :
  fetch_latest_video no_items_key "UCabc" (start Missing)
  = (inr none3,
     log [ErrorOccurred (KeyError (JStr "items"))] [ChannelsList "UCabc"]
       (start Missing)).
Proof.
  apply (@fetch_latest_video_no_items_key no_items_key "UCabc"
           [("kind", JStr "youtube#channelListResponse")] (start Missing));
    reflexivity.
Defined.

(* ===================================================================== *)
(** ** More on [post_gmail] *)
(* ===================================================================== *)

(** X4.  On an open connection and with a server that accepts the four
    commands, [post_gmail] hands over exactly one mail, the one built from
    the title and the url, prints [MailSent], and leaves the connection
    of the module closed. *)
Theorem post_gmail_delivers (E : env) (title url : json) (w : world) :
  connected (gmail_server w) = true ->
  (forall s c, smtp_reply E (posts w) s c = Accepted) ->
  let w' := snd (post_gmail E title url w) in
  fst (post_gmail E title url w) = inr tt /\
  outbox w' = (outbox w ++ [mail E title url])%list /\
  stdout w' = (stdout w ++ [MailSent])%list /\
  connected (gmail_server w') = false /\
  disk w' = disk w.
Proof.
  intros Hc Hs. unfold post_gmail. unfold_py. unfold_io.
  destruct w as [dk [conn tl li] so rq ob ps op]; simpl in *. subst conn.
  repeat (rewrite Hs; simpl). now repeat split.
Qed.

Lemma post_gmail_delivers_witness :
  let w := start Missing in
  let w' := snd (post_gmail healthy (JStr "New Upload") (JStr "u") w) in
  fst (post_gmail healthy (JStr "New Upload") (JStr "u") w) = inr tt /\
  outbox w' = (outbox w ++ [mail healthy (JStr "New Upload") (JStr "u")])%list /\
  stdout w' = (stdout w ++ [MailSent])%list /\
  connected (gmail_server w') = false /\
  disk w' = disk w.
Proof.
  apply (@post_gmail_delivers healthy (JStr "New Upload") (JStr "u") (start Missing)).
  - reflexivity.
  - intros s c. reflexivity.
Defined.

(** X5.  [post_gmail] never raises and prints exactly one line, [MailSent]
    or [MailFailed].  When it prints [MailSent], the server has accepted
    the mail and the connection is closed; and in no case does more than
    this one mail leave. *)
Theorem post_gmail_reports (E : env) (title url : json) (w : world) :
  let w' := snd (post_gmail E title url w) in
  fst (post_gmail E title url w) = inr tt /\
  (outbox w' = outbox w \/ outbox w' = (outbox w ++ [mail E title url])%list) /\
  ((stdout w' = (stdout w ++ [MailSent])%list /\
    outbox w' = (outbox w ++ [mail E title url])%list /\
    connected (gmail_server w') = false)
   \/ exists e, stdout w' = (stdout w ++ [MailFailed e])%list).
Proof.
  unfold post_gmail. unfold_py. unfold_io.
  destruct w as [dk [conn tl li] so rq ob ps op]; simpl.
  repeat (split_match; simpl);
    (split; [reflexivity |]);
    (split; [first [left; reflexivity | right; reflexivity] |]);
    first [left; repeat split; reflexivity | right; eexists; reflexivity].
Qed.

(** X6.  When the first three commands are accepted and [quit()] raises,
    the mail has left and [post_gmail] prints the failure all the same. *)
Theorem post_gmail_quit_failure (E : env) (title url : json) (w : world)
    (e : exn) (drop : bool) :
  connected (gmail_server w) = true ->
  (forall s c, c <> Quit -> smtp_reply E (posts w) s c = Accepted) ->
  (forall s, smtp_reply E (posts w) s Quit = Refused e drop) ->
  let w' := snd (post_gmail E title url w) in
  outbox w' = (outbox w ++ [mail E title url])%list /\
  stdout w' = (stdout w ++ [MailFailed e])%list.
Proof.
  intros Hc Hs Hq. unfold post_gmail. unfold_py. unfold_io.
  destruct w as [dk [conn tl li] so rq ob ps op]; simpl in *. subst conn.
  repeat (rewrite Hs by discriminate; simpl). rewrite Hq. destruct drop; now split.
Qed.

Lemma post_gmail_quit_failure_witness :
  let w := start Missing in
  let w' := snd (post_gmail quit_fails (JStr "New Upload") (JStr "u") w) in
  outbox w' = (outbox w ++ [mail quit_fails (JStr "New Upload") (JStr "u")])%list /\
  stdout w' = (stdout w ++ [MailFailed SMTPServerDisconnected])%list.
Proof.
  apply (@post_gmail_quit_failure quit_fails (JStr "New Upload") (JStr "u")
           (start Missing) SMTPServerDisconnected true).
  - reflexivity.
  - intros s [] H; try reflexivity. now elim H.
  - intro s. reflexivity.
Defined.

(* ===================================================================== *)
(** ** More on [update_json_data] *)
(* ===================================================================== *)

(** X7.  When the file cannot be loaded (it is missing, it is not JSON, or
    [open] fails), [update_json_data] prints the exception and returns;
    the file is never opened for writing. *)
Theorem update_json_data_load_failure (E : env) (c : string) (v : json)
    (w : world) (e : exn) :
  fst (open_and_load E w) = inl e ->
  update_json_data E c v w = (inr tt, add_line (JsonUpdateError e) (count_open w)).
Proof.
  unfold update_json_data, open_and_load. unfold_py.
  destruct (open_fault E (opens w)); [| destruct (disk w)]; simpl;
    intro H; try discriminate; now injection H as <-.
Qed.

Lemma update_json_data_load_failure_witness :
  update_json_data healthy "UCabc" (JStr "vid2") (start Missing)
  = (inr tt, add_line (JsonUpdateError FileNotFoundError) (count_open (start Missing))).
Proof.
  apply (@update_json_data_load_failure healthy "UCabc" (JStr "vid2")
           (start Missing) FileNotFoundError).
  reflexivity.
Defined.

(** X8.  When the registry holds the source but its entry is not a dict,
    the assignment of l.113 raises [TypeError]: the function prints it and
    the file is not opened for writing. *)
Theorem update_json_data_entry_not_dict (E : env) (c : string) (v : json)
    (w : world) (d : doc) (items : list (string * json)) (x : json) :
  disk w = Document d ->
  json_load d = JObj items ->
  assoc c items = Some x ->
  (forall fields, x <> JObj fields) ->
  open_fault E (opens w) = None ->
  update_json_data E c v w
  = (inr tt, add_line (JsonUpdateError TypeError) (count_open w)).
Proof.
  intros Hd Hl Ha Hx Ho. unfold update_json_data, open_and_load. unfold_py.
  rewrite Ho, Hd, Hl. simpl. rewrite Ha. unfold setitem2. simpl. rewrite Ha.
  destruct x; try reflexivity. now elim (Hx l).
Qed.

Lemma update_json_data_entry_not_dict_witness :
  update_json_data healthy "UCabc" (JStr "vid2") (start (Document flat_registry))
  = (inr tt,
     add_line (JsonUpdateError TypeError) (count_open (start (Document flat_registry)))).
Proof.
  apply (@update_json_data_entry_not_dict healthy "UCabc" (JStr "vid2")
           (start (Document flat_registry)) flat_registry
           [("UCabc", JStr "vid1")] (JStr "vid1"));
    try reflexivity.
  intros fields H. discriminate H.
Defined.

(** X9.  [update_json_data] never raises, and it changes the file only
    when it reports the update: unless writing itself fails, either the
    file is as before, or the last line printed is [Updated] and the file
    holds what [json.dump] wrote. *)
Theorem update_json_data_changes_only_on_update (E : env) (c : string)
    (v : json) (w : world) :
  write_fault E (S (opens w)) = None ->
  let w' := snd (update_json_data E c v w) in
  fst (update_json_data E c v w) = inr tt /\
  (disk w' = disk w \/
   (stdout w' = (stdout w ++ [Updated c v])%list /\
    exists json_data, disk w' = Document (json_dump json_data))).
Proof.
  intro Hw. unfold update_json_data. unfold_py. unfold_io. simpl.
  repeat (split_match; simpl); split; try reflexivity;
    try (left; reflexivity); try congruence.
  right. split; [reflexivity |]. eexists. reflexivity.
Qed.

Lemma update_json_data_changes_only_on_update_witness :
  let w := start (Document one_source) in
  let w' := snd (update_json_data healthy "UCabc" (JStr "vid2") w) in
  fst (update_json_data healthy "UCabc" (JStr "vid2") w) = inr tt /\
  (disk w' = disk w \/
   (stdout w' = (stdout w ++ [Updated "UCabc" (JStr "vid2")])%list /\
    exists json_data, disk w' = Document (json_dump json_data))).
Proof.
  apply (@update_json_data_changes_only_on_update healthy "UCabc" (JStr "vid2")
           (start (Document one_source))).
  reflexivity.
Defined.

Lemma dict_set_twice k v1 v2 l :
  dict_set k v2 (dict_set k v1 l) = dict_set k v2 l.
Proof.
  induction l as [| [k' v'] l IH]; simpl.
  - now rewrite String.eqb_refl.
  - destruct (String.eqb k k') eqn:Hk; simpl; rewrite Hk; [reflexivity |].
    now rewrite IH.
Qed.

Lemma dict_set_swap k1 k2 v1 v2 x1 x2 l :
  k1 <> k2 -> assoc k1 l = Some x1 -> assoc k2 l = Some x2 ->
  dict_set k1 v1 (dict_set k2 v2 l) = dict_set k2 v2 (dict_set k1 v1 l).
Proof.
  intro Hne. induction l as [| [k' v'] l IH]; simpl; [discriminate |].
  destruct (String.eqb_spec k1 k') as [-> | H1];
    destruct (String.eqb_spec k2 k') as [-> | H2]; simpl.
  - congruence.
  - intros _ _. rewrite String.eqb_refl.
    destruct (String.eqb_spec k2 k'); [contradiction | reflexivity].
  - intros _ _. rewrite String.eqb_refl.
    destruct (String.eqb_spec k1 k'); [contradiction | reflexivity].
  - intros Ha1 Ha2.
    destruct (String.eqb_spec k1 k'); [contradiction |].
    destruct (String.eqb_spec k2 k'); [contradiction |].
    now rewrite IH.
Qed.

(** The world after an update that went through, and what a reload of the
    file gives in it. *)
Lemma update_json_data_then E c v w d items fields :
  (forall n, open_fault E n = None) ->
  (forall n, write_fault E n = None) ->
  disk w = Document d ->
  json_load d = JObj items ->
  assoc c items = Some (JObj fields) ->
  wf v = true ->
  exists w',
    update_json_data E c v w = (inr tt, w') /\
    disk w' = Document (json_dump
                (JObj (dict_set c (JObj (dict_set "latestVideoId" v fields)) items))) /\
    json_load (json_dump
                (JObj (dict_set c (JObj (dict_set "latestVideoId" v fields)) items)))
    = JObj (dict_set c (JObj (dict_set "latestVideoId" v fields)) items).
Proof.
  intros Ho Hw Hd Hl Ha Hv.
  rewrite (update_json_data_writes E c v w d items fields Hd Hl Ha (Ho _) (Ho _) (Hw _)).
  eexists. split; [reflexivity |]. split; [reflexivity |].
  assert (wf (JObj items) = true) as Hitems by (rewrite <- Hl; apply wf_json_load).
  apply json_load_dump. apply wf_dict_set; [| assumption].
  apply wf_dict_set; [assumption |]. eapply wf_assoc; eassumption.
Qed.

(** X10.  Two updates of the same source in a row leave the file that the
    second one alone would leave: the last id wins, and an update that is
    repeated changes nothing more. *)
Theorem update_json_data_last_wins (E : env) (c : string) (v1 v2 : json)
    (w : world) (d : doc) (items fields : list (string * json)) :
  (forall n, open_fault E n = None) ->
  (forall n, write_fault E n = None) ->
  disk w = Document d ->
  json_load d = JObj items ->
  assoc c items = Some (JObj fields) ->
  wf v1 = true ->
  disk (snd ((update_json_data E c v1 ;; update_json_data E c v2) w))
  = disk (snd (update_json_data E c v2 w)).
Proof.
  intros Ho Hw Hd Hl Ha Hv1.
  destruct (update_json_data_then E c v1 w d items fields Ho Hw Hd Hl Ha Hv1)
    as (w1 & Hu1 & Hd1 & Hl1).
  unfold bind. rewrite Hu1.
  rewrite (update_json_data_writes E c v2 w1 _ _ _ Hd1 Hl1
             (assoc_dict_set_same c _ items) (Ho _) (Ho _) (Hw _)).
  rewrite (update_json_data_writes E c v2 w d items fields Hd Hl Ha (Ho _) (Ho _) (Hw _)).
  simpl. now rewrite !dict_set_twice.
Qed.

Lemma update_json_data_last_wins_witness :
  disk (snd ((update_json_data healthy "UCabc" (JStr "vid2") ;;
              update_json_data healthy "UCabc" (JStr "vid3"))
               (start (Document one_source))))
  = disk (snd (update_json_data healthy "UCabc" (JStr "vid3")
                 (start (Document one_source)))).
Proof.
  apply (@update_json_data_last_wins healthy "UCabc" (JStr "vid2") (JStr "vid3")
           (start (Document one_source)) one_source
           [("UCabc", JObj [("latestVideoId", JStr "vid1")])]
           [("latestVideoId", JStr "vid1")]);
    try reflexivity; intro n; reflexivity.
Defined.

(** X11.  Updates of two different sources that the registry holds can be
    made in either order: the file is the same. *)
Theorem update_json_data_commute (E : env) (c1 c2 : string) (v1 v2 : json)
    (w : world) (d : doc) (items fields1 fields2 : list (string * json)) :
  (forall n, open_fault E n = None) ->
  (forall n, write_fault E n = None) ->
  disk w = Document d ->
  json_load d = JObj items ->
  c1 <> c2 ->
  assoc c1 items = Some (JObj fields1) ->
  assoc c2 items = Some (JObj fields2) ->
  wf v1 = true ->
  wf v2 = true ->
  disk (snd ((update_json_data E c1 v1 ;; update_json_data E c2 v2) w))
  = disk (snd ((update_json_data E c2 v2 ;; update_json_data E c1 v1) w)).
Proof.
  intros Ho Hw Hd Hl Hne Ha1 Ha2 Hv1 Hv2.
  destruct (update_json_data_then E c1 v1 w d items fields1 Ho Hw Hd Hl Ha1 Hv1)
    as (w1 & Hu1 & Hd1 & Hl1).
  destruct (update_json_data_then E c2 v2 w d items fields2 Ho Hw Hd Hl Ha2 Hv2)
    as (w2 & Hu2 & Hd2 & Hl2).
  unfold bind. rewrite Hu1, Hu2.
  assert (assoc c2 (dict_set c1 (JObj (dict_set "latestVideoId" v1 fields1)) items)
          = Some (JObj fields2)) as Ha2'
    by (rewrite assoc_dict_set_other; assumption).
  assert (assoc c1 (dict_set c2 (JObj (dict_set "latestVideoId" v2 fields2)) items)
          = Some (JObj fields1)) as Ha1'
    by (rewrite assoc_dict_set_other; [assumption | congruence]).
  rewrite (update_json_data_writes E c2 v2 w1 _ _ _ Hd1 Hl1 Ha2' (Ho _) (Ho _) (Hw _)).
  rewrite (update_json_data_writes E c1 v1 w2 _ _ _ Hd2 Hl2 Ha1' (Ho _) (Ho _) (Hw _)).
  simpl. do 3 f_equal.
  symmetry. eapply dict_set_swap; eassumption.
Qed.

Lemma update_json_data_commute_witness :
  disk (snd ((update_json_data healthy "UCabc" (JStr "vid2") ;;
              update_json_data healthy "UCdef" (JStr "vid3"))
               (start (Document two_sources))))
  = disk (snd ((update_json_data healthy "UCdef" (JStr "vid3") ;;
                update_json_data healthy "UCabc" (JStr "vid2"))
                 (start (Document two_sources)))).
Proof.
  apply (@update_json_data_commute healthy "UCabc" "UCdef" (JStr "vid2") (JStr "vid3")
           (start (Document two_sources)) two_sources
           [("UCabc", JObj [("latestVideoId", JStr "vid1")]);
            ("UCdef", JObj [("latestVideoId", JStr "vid9")])]
           [("latestVideoId", JStr "vid1")] [("latestVideoId", JStr "vid9")]);
    try reflexivity; try (intro n; reflexivity).
  discriminate.
Defined.

(* ===================================================================== *)
(** ** Relations that every statement of a run keeps *)
(* ===================================================================== *)

Section Keeps.

Variable R : world -> world -> Prop.
Hypothesis R_refl : forall w, R w w.
Hypothesis R_trans : forall w1 w2 w3, R w1 w2 -> R w2 w3 -> R w1 w3.

Lemma keeps_ret {A} (a : A) : keeps R (ret a).
Proof. intro w. apply R_refl. Qed.

Lemma keeps_eval {A} (r : result A) : keeps R (eval r).
Proof. intro w. apply R_refl. Qed.

Lemma keeps_bind {A B} (c : M A) (k : A -> M B) :
  keeps R c -> (forall a, keeps R (k a)) -> keeps R (bind c k).
Proof.
  intros Hc Hk w. unfold bind. specialize (Hc w).
  destruct (c w) as [[e | a] w1]; simpl in *; [assumption |].
  eapply R_trans; [eassumption | apply Hk].
Qed.

Lemma keeps_try_except {A} (c : M A) (h : exn -> M A) :
  keeps R c -> (forall e, keeps R (h e)) -> keeps R (try_except c h).
Proof.
  intros Hc Hh w. unfold try_except. specialize (Hc w).
  destruct (c w) as [[e | a] w1]; simpl in *; [| assumption].
  eapply R_trans; [eassumption | apply Hh].
Qed.

Lemma keeps_if {A} (b : bool) (c d : M A) :
  keeps R c -> keeps R d -> keeps R (if b then c else d).
Proof. now destruct b. Qed.

End Keeps.

Lemma count_sent_app ls ls' :
  count_sent (ls ++ ls') = count_sent ls + count_sent ls'.
Proof. unfold count_sent. now rewrite filter_app, length_app. Qed.

Lemma once_closed_refl w : once_closed w w.
Proof. split; [intro H; now repeat split | now left]. Qed.

Lemma once_closed_trans w1 w2 w3 :
  once_closed w1 w2 -> once_closed w2 w3 -> once_closed w1 w3.
Proof.
  intros [Hc12 Hs12] [Hc23 Hs23]. split.
  - intro Hc. destruct (Hc12 Hc) as (Hc2 & Ho2 & Hn2).
    destruct (Hc23 Hc2) as (Hc3 & Ho3 & Hn3). repeat split; congruence.
  - destruct Hs12 as [H12 | [H12 Hc2]].
    + destruct Hs23 as [H23 | [H23 Hc3]]; [left | right; split]; congruence.
    + destruct (Hc23 Hc2) as (Hc3 & _ & Hn3). right; split; congruence.
Qed.

Lemma calm_once_closed w w' : calm w w' -> once_closed w w'.
Proof.
  intros (Hs & Ho & Hn). split; [| now left].
  intro Hc. rewrite Hs. now repeat split.
Qed.

Lemma calm_print l :
  l <> MailSent -> forall w, calm w (snd (print l w)).
Proof.
  intros Hl w. unfold print, add_line, calm; simpl. repeat split.
  rewrite count_sent_app.
  assert (count_sent [l] = 0) as H0 by (destruct l; try reflexivity; now elim Hl).
  lia.
Qed.

Lemma keeps_print l : l <> MailSent -> keeps once_closed (print l).
Proof. intros Hl w. now apply calm_once_closed, calm_print. Qed.

Lemma keeps_channels_list E c : keeps once_closed (channels_list_execute E c).
Proof. intro w. apply calm_once_closed. now repeat split. Qed.

Lemma keeps_playlist_items_list E c p :
  keeps once_closed (playlist_items_list_execute E c p).
Proof. intro w. apply calm_once_closed. now repeat split. Qed.

Lemma keeps_open_and_load E : keeps once_closed (open_and_load E).
Proof.
  intro w. apply calm_once_closed. unfold open_and_load.
  destruct (open_fault E (opens w)); [| destruct (disk w)];
    unfold calm; simpl; now repeat split.
Qed.

Lemma keeps_open_and_dump E v : keeps once_closed (open_and_dump E v).
Proof.
  intro w. apply calm_once_closed. unfold open_and_dump.
  destruct (open_fault E (opens w)); [| destruct (write_fault E (opens w)) as [[e c] |]];
    unfold calm; simpl; now repeat split.
Qed.

Lemma keeps_post_gmail E title url : keeps once_closed (post_gmail E title url).
Proof.
  intro w. unfold once_closed, post_gmail. unfold_py. unfold_io.
  destruct w as [dk [conn tl li] so rq ob ps op]; simpl.
  repeat (split_match; simpl); rewrite count_sent_app;
    unfold count_sent; simpl; split;
    try (intro H; discriminate H);
    try (intros _; repeat split; lia);
    first [left; lia | right; split; [lia | reflexivity]].
Qed.

Create HintDb keeps.

#[local] Hint Resolve once_closed_refl once_closed_trans keeps_channels_list
  keeps_playlist_items_list keeps_open_and_load keeps_open_and_dump
  keeps_post_gmail : keeps.

Ltac keep :=
  repeat first
    [ solve [ auto with keeps ]
    | apply keeps_ret; exact once_closed_refl
    | apply keeps_eval; exact once_closed_refl
    | apply keeps_print; discriminate
    | apply keeps_if
    | apply keeps_try_except; [exact once_closed_trans | | intro ]
    | apply keeps_bind; [exact once_closed_trans | | intro ] ].

Lemma keeps_fetch_latest_video E c : keeps once_closed (fetch_latest_video E c).
Proof. unfold fetch_latest_video. keep. Qed.

Lemma keeps_update_json_data E c v : keeps once_closed (update_json_data E c v).
Proof. unfold update_json_data. keep. Qed.

#[local] Hint Resolve keeps_fetch_latest_video keeps_update_json_data : keeps.

Lemma keeps_check_channel E item : keeps once_closed (check_channel E item).
Proof.
  destruct item as [c data]. unfold check_channel.
  apply keeps_bind; [exact once_closed_trans | keep | intro stored].
  apply keeps_bind; [exact once_closed_trans | keep | intros _].
  apply keeps_bind; [exact once_closed_trans | apply keeps_fetch_latest_video |].
  intros [[v t] u]. keep.
Qed.

Lemma keeps_for_each E items : keeps once_closed (for_each E items).
Proof.
  induction items as [| item items IH]; simpl.
  - apply keeps_ret; exact once_closed_refl.
  - apply keeps_bind; [exact once_closed_trans | apply keeps_check_channel |].
    intros _. exact IH.
Qed.

Lemma keeps_main E : keeps once_closed (main E).
Proof.
  unfold main.
  apply keeps_bind; [exact once_closed_trans | apply keeps_open_and_load | intro x].
  apply keeps_bind; [exact once_closed_trans | keep | intro items].
  apply keeps_for_each.
Qed.

(* ===================================================================== *)
(** ** What one connection means for a run *)
(* ===================================================================== *)

(** X12.  A run prints [MailSent] at most once, whatever the registry, the
    API, the server and the file system do: the send that worked has
    closed the connection that every later send uses. *)
Theorem main_sends_at_most_once (E : env) (w : world) :
  count_sent (stdout (snd (main E w))) <= S (count_sent (stdout w)).
Proof.
  destruct (keeps_main E w) as [_ [H | [H _]]]; lia.
Qed.

(** X13.  Once the loop body has printed [MailSent] for a source, no mail
    leaves for any of the sources that follow in the run. *)
Theorem no_mail_after_mail_sent (E : env) (item : string * json)
    (rest : list (string * json)) (w : world) :
  count_sent (stdout (snd (check_channel E item w))) = S (count_sent (stdout w)) ->
  outbox (snd (for_each E rest (snd (check_channel E item w))))
  = outbox (snd (check_channel E item w)).
Proof.
  intro Hsent.
  destruct (keeps_check_channel E item w) as [_ [H | [_ Hclosed]]]; [lia |].
  destruct (keeps_for_each E rest (snd (check_channel E item w))) as [Hrest _].
  now destruct (Hrest Hclosed) as (_ & Hout & _).
Qed.

Lemma no_mail_after_mail_sent_witness :
  outbox (snd (for_each healthy [("UCdef", JObj [("latestVideoId", JStr "vid9")])]
                 (snd (check_channel healthy
                         ("UCabc", JObj [("latestVideoId", JStr "vid1")])
                         (start (Document two_sources))))))
  = outbox (snd (check_channel healthy
                   ("UCabc", JObj [("latestVideoId", JStr "vid1")])
                   (start (Document two_sources)))).
Proof.
  apply (@no_mail_after_mail_sent healthy
           ("UCabc", JObj [("latestVideoId", JStr "vid1")])
           [("UCdef", JObj [("latestVideoId", JStr "vid9")])]
           (start (Document two_sources))).
  vm_compute. reflexivity.
Defined.

(* ===================================================================== *)
(** ** Runs *)
(* ===================================================================== *)

(** When the decision is not to notify, the loop body only prints and
    calls the API. *)
Lemma check_channel_skips E c fields :
  notifies E c fields = false ->
  exists ls rs, forall w,
    check_channel E (c, JObj fields) w = (inr tt, log ls rs w).
Proof.
  intro Hn. destruct (check_channel_dict E c fields) as (ls & rs & _ & Hc).
  unfold notifies, video_id_of in Hn.
  destruct (fetched E c) as [[v t] u] eqn:Hf. simpl in Hn.
  destruct (truthy v) eqn:Ht; simpl in Hn.
  - exists (Fetching c :: ls ++ [NoNewVideo c; Separator])%list, rs. intro w.
    rewrite Hc. unfold after_fetch. rewrite Ht, Hn. unfold_py. simpl.
    f_equal. unfold log, add_line; simpl. now rewrite <- !app_assoc.
  - exists (Fetching c :: ls ++ [FetchFailed c; Separator])%list, rs. intro w.
    rewrite Hc. unfold after_fetch. rewrite Ht. unfold_py. simpl.
    f_equal. unfold log, add_line; simpl. now rewrite <- !app_assoc.
Qed.

Lemma for_each_skips E items :
  Forall (fun p => exists fields,
            snd p = JObj fields /\ notifies E (fst p) fields = false) items ->
  exists ls rs, forall w, for_each E items w = (inr tt, log ls rs w).
Proof.
  induction 1 as [| [c data] items (fields & Hd & Hn) _ (ls' & rs' & IH)].
  - exists [], []. intro w. simpl. unfold ret. now rewrite log_nil.
  - simpl in Hd, Hn. subst data.
    destruct (check_channel_skips E c fields Hn) as (ls & rs & Hc).
    exists (ls ++ ls')%list, (rs ++ rs')%list. intro w.
    change (for_each E ((c, JObj fields) :: items))
      with (bind (check_channel E (c, JObj fields)) (fun _ => for_each E items)).
    unfold bind. now rewrite Hc, IH, log_log.
Qed.

(** X14.  A run in which no source has anything new (for each one the
    fetch fails or gives the stored id) completes, and leaves the file,
    the connection and the mails as they were: [post_gmail] is not called
    and the file is opened once, to be read. *)
Theorem run_without_news (E : env) (w : world) (d : doc)
    (items : list (string * json)) :
  disk w = Document d ->
  json_load d = JObj items ->
  open_fault E (opens w) = None ->
  Forall (fun p => exists fields,
            snd p = JObj fields /\ notifies E (fst p) fields = false) items ->
  let w' := snd (main E w) in
  fst (main E w) = inr tt /\
  disk w' = disk w /\ gmail_server w' = gmail_server w /\
  outbox w' = outbox w /\ posts w' = posts w /\ opens w' = S (opens w).
Proof.
  intros Hd Hl Ho Hall. rewrite (main_loads E w d items Hd Hl Ho).
  destruct (for_each_skips E items Hall) as (ls & rs & H).
  rewrite H. simpl. now repeat split.
Qed.

Lemma run_without_news_witness :
  let w := start (Document one_source) in
  let w' := snd (main nothing_new w) in
  fst (main nothing_new w) = inr tt /\
  disk w' = disk w /\ gmail_server w' = gmail_server w /\
  outbox w' = outbox w /\ posts w' = posts w /\ opens w' = S (opens w).
Proof.
  apply (@run_without_news nothing_new (start (Document one_source)) one_source
           [("UCabc", JObj [("latestVideoId", JStr "vid1")])]);
    try reflexivity.
  repeat constructor. eexists. split; [reflexivity | vm_compute; reflexivity].
Defined.

(** The loop body calls [post_gmail] once when the decision is to notify,
    and not at all otherwise. *)
Lemma check_channel_posts E c fields w :
  fst (check_channel E (c, JObj fields) w) = inr tt /\
  posts (snd (check_channel E (c, JObj fields) w))
  = posts w + (if notifies E c fields then 1 else 0).
Proof.
  destruct (notifies E c fields) eqn:Hn.
  - destruct (check_channel_dict E c fields) as (ls & rs & _ & Hc).
    rewrite Hc. split; [apply after_fetch_returns |].
    unfold notifies, video_id_of in Hn.
    destruct (fetched E c) as [[v t] u]. simpl in Hn.
    apply andb_true_iff in Hn as [Ht Hne].
    unfold after_fetch. rewrite Ht, Hne. unfold_py. simpl.
    match goal with |- context [post_gmail E t u ?w0] =>
      destruct (post_gmail_frame E t u w0) as (Hp & Hposts & _);
      destruct (post_gmail E t u w0) as [rp wp] end.
    simpl in Hp, Hposts. subst rp.
    destruct (update_json_data_frame E c v wp) as (Hu & Hposts' & _).
    destruct (update_json_data E c v wp) as [ru wu]. simpl in Hu, Hposts'.
    subst ru. simpl. rewrite Hposts', Hposts. simpl. lia.
  - destruct (check_channel_skips E c fields Hn) as (ls & rs & H).
    rewrite H. simpl. split; [reflexivity | lia].
Qed.

(** X15.  Over a registry whose entries are dicts, the number of calls
    of [post_gmail] in a run is the number of sources for which the fetch
    gave an id that differs from the one stored when the run began. *)
Theorem main_posts_count (E : env) (w : world) (d : doc)
    (items : list (string * json)) :
  disk w = Document d ->
  json_load d = JObj items ->
  open_fault E (opens w) = None ->
  Forall (fun p => exists fields, snd p = JObj fields) items ->
  posts (snd (main E w)) = posts w + notify_count E items.
Proof.
  intros Hd Hl Ho Hall. rewrite (main_loads E w d items Hd Hl Ho).
  change (posts w) with (posts (count_open w)).
  generalize (count_open w) as w0. clear Hd Hl Ho.
  induction Hall as [| [c data] items (fields & Hdata) _ IH]; intro w0.
  - simpl. unfold notify_count. simpl. lia.
  - simpl in Hdata. subst data.
    change (for_each E ((c, JObj fields) :: items))
      with (bind (check_channel E (c, JObj fields)) (fun _ => for_each E items)).
    unfold bind. destruct (check_channel_posts E c fields w0) as (Hr & Hp).
    destruct (check_channel E (c, JObj fields) w0) as [r w1]. simpl in Hr, Hp.
    subst r. rewrite IH, Hp. unfold notify_count. simpl.
    destruct (notifies E c fields); simpl; lia.
Qed.

Lemma main_posts_count_witness :
  posts (snd (main healthy (start (Document two_sources))))
  = posts (start (Document two_sources)) +
    notify_count healthy [("UCabc", JObj [("latestVideoId", JStr "vid1")]);
                          ("UCdef", JObj [("latestVideoId", JStr "vid9")])].
Proof.
  apply (@main_posts_count healthy (start (Document two_sources)) two_sources
           [("UCabc", JObj [("latestVideoId", JStr "vid1")]);
            ("UCdef", JObj [("latestVideoId", JStr "vid9")])]);
    try reflexivity.
  repeat constructor; eexists; reflexivity.
Defined.

(** An update that goes through, seen from the caller: the line printed,
    the mails untouched, and the entry a reload finds. *)
Lemma update_json_data_then_entry E c v w d items fields :
  disk w = Document d ->
  json_load d = JObj items ->
  assoc c items = Some (JObj fields) ->
  wf v = true ->
  open_fault E (opens w) = None ->
  open_fault E (S (opens w)) = None ->
  write_fault E (S (opens w)) = None ->
  exists w',
    update_json_data E c v w = (inr tt, w') /\
    stdout w' = (stdout w ++ [Updated c v])%list /\
    outbox w' = outbox w /\
    (exists d' items' fields',
       disk w' = Document d' /\
       json_load d' = JObj items' /\
       assoc c items' = Some (JObj fields') /\
       assoc "latestVideoId" fields' = Some v).
Proof.
  intros Hd Hl Ha Hv Ho1 Ho2 Hw.
  rewrite (update_json_data_writes E c v w d items fields Hd Hl Ha Ho1 Ho2 Hw).
  eexists. split; [reflexivity |]. split; [reflexivity |]. split; [reflexivity |].
  assert (wf (JObj items) = true) as Hitems by (rewrite <- Hl; apply wf_json_load).
  assert (wf (JObj fields) = true) as Hfields by (eapply wf_assoc; eassumption).
  eexists _, _, _. split; [reflexivity |]. split.
  { apply (json_load_dump
             (JObj (dict_set c (JObj (dict_set "latestVideoId" v fields)) items))).
    apply wf_dict_set; [| assumption]. now apply wf_dict_set. }
  split; apply assoc_dict_set_same.
Qed.

(** A send on an open connection to a server that accepts everything. *)
Lemma post_gmail_accepted E title url w :
  connected (gmail_server w) = true ->
  (forall s c, smtp_reply E (posts w) s c = Accepted) ->
  exists w',
    post_gmail E title url w = (inr tt, w') /\
    stdout w' = (stdout w ++ [MailSent])%list /\
    outbox w' = (outbox w ++ [mail E title url])%list /\
    disk w' = disk w /\ opens w' = opens w.
Proof.
  intros Hc Hs. unfold post_gmail. unfold_py. unfold_io.
  destruct w as [dk [conn tl li] so rq ob ps op]; simpl in *. subst conn.
  repeat (rewrite Hs; simpl). eexists. split; [reflexivity |]. now repeat split.
Qed.

(** X16.  The whole path for a source with a new upload, when the
    connection is open, the server accepts the mail and the file can be
    read and written: one mail leaves, built from the fetched title and
    url; the lines are printed in the order of the script; and the entry of
    the source in the file gets the fetched id. *)
Theorem check_channel_notifies (E : env) (c : string)
    (fields : list (string * json)) (w : world) (d : doc)
    (items file_fields : list (string * json)) (v title url : json) :
  fetched E c = (v, title, url) ->
  truthy v = true ->
  py_ne v (stored_id fields) = true ->
  connected (gmail_server w) = true ->
  (forall s cmd, smtp_reply E (posts w) s cmd = Accepted) ->
  disk w = Document d ->
  json_load d = JObj items ->
  assoc c items = Some (JObj file_fields) ->
  wf v = true ->
  open_fault E (opens w) = None ->
  open_fault E (S (opens w)) = None ->
  write_fault E (S (opens w)) = None ->
  let w' := snd (check_channel E (c, JObj fields) w) in
  fst (check_channel E (c, JObj fields) w) = inr tt /\
  outbox w' = (outbox w ++ [mail E title url])%list /\
  (exists ls,
     stdout w' = (stdout w ++ Fetching c :: ls ++
                  [NewVideoFound title; PreviousId (stored_id fields); NewId v;
                   MailSent; Updated c v; Separator])%list) /\
  (exists d' items' fields',
     disk w' = Document d' /\
     json_load d' = JObj items' /\
     assoc c items' = Some (JObj fields') /\
     assoc "latestVideoId" fields' = Some v).
Proof.
  intros Hf Ht Hne Hconn Hsmtp Hd Hl Ha Hv Ho1 Ho2 Hw.
  destruct (check_channel_dict E c fields) as (ls & rs & _ & Hc).
  pose (wp := add_line (NewId v) (add_line (PreviousId (stored_id fields))
                (add_line (NewVideoFound title) (log (Fetching c :: ls) rs w)))).
  destruct (post_gmail_accepted E title url wp Hconn Hsmtp)
    as (w1 & Hp & Hout & Hbox & Hdisk & Hopens).
  assert (disk w1 = Document d) as Hd1 by (rewrite Hdisk; exact Hd).
  assert (opens w1 = opens w) as Ho by (rewrite Hopens; reflexivity).
  rewrite <- Ho in Ho1, Ho2, Hw.
  destruct (update_json_data_then_entry E c v w1 d items file_fields
              Hd1 Hl Ha Hv Ho1 Ho2 Hw) as (w2 & Hu & Hstd & Hbox2 & Hreg).
  assert (check_channel E (c, JObj fields) w = (inr tt, add_line Separator w2))
    as Heq.
  { rewrite Hc, Hf. unfold after_fetch. rewrite Ht, Hne.
    unfold_py. fold wp. rewrite Hp, Hu. reflexivity. }
  rewrite Heq. simpl. split; [reflexivity |]. split; [| split].
  - rewrite Hbox2, Hbox. reflexivity.
  - exists ls. rewrite Hstd, Hout. subst wp. simpl.
    repeat (rewrite <- app_assoc; simpl). reflexivity.
  - exact Hreg.
Qed.

Lemma check_channel_notifies_witness :
  let w := start (Document one_source) in
  let item := ("UCabc", JObj [("latestVideoId", JStr "vid1")]) in
  let w' := snd (check_channel healthy item w) in
  fst (check_channel healthy item w) = inr tt /\
  outbox w' = (outbox w ++
               [mail healthy (JStr "New Upload")
                  (JStr "https://www.youtube.com/watch?v=new-UCabc")])%list /\
  (exists ls,
     stdout w' = (stdout w ++ Fetching "UCabc" :: ls ++
                  [NewVideoFound (JStr "New Upload");
                   PreviousId (stored_id [("latestVideoId", JStr "vid1")]);
                   NewId (JStr "new-UCabc"); MailSent;
                   Updated "UCabc" (JStr "new-UCabc"); Separator])%list) /\
  (exists d' items' fields',
     disk w' = Document d' /\
     json_load d' = JObj items' /\
     assoc "UCabc" items' = Some (JObj fields') /\
     assoc "latestVideoId" fields' = Some (JStr "new-UCabc")).
Proof.
  apply (@check_channel_notifies healthy "UCabc" [("latestVideoId", JStr "vid1")]
           (start (Document one_source)) one_source
           [("UCabc", JObj [("latestVideoId", JStr "vid1")])]
           [("latestVideoId", JStr "vid1")]
           (JStr "new-UCabc") (JStr "New Upload")
           (JStr "https://www.youtube.com/watch?v=new-UCabc"));
    reflexivity.
Defined.

Lemma for_each_stops E pre c data rest : forall w,
  Forall (fun p => exists fields, snd p = JObj fields) pre ->
  (forall fields, data <> JObj fields) ->
  fst (for_each E (pre ++ (c, data) :: rest) w) = inl AttributeError /\
  channel_requests (requests (snd (for_each E (pre ++ (c, data) :: rest) w)))
  = (channel_requests (requests w) ++ map fst pre)%list.
Proof.
  induction pre as [| [c0 data0] pre IH]; intros w Hpre Hdata.
  - change (for_each E ([] ++ (c, data) :: rest))
      with (bind (check_channel E (c, data)) (fun _ => for_each E rest)).
    unfold bind. rewrite (check_channel_not_dict E c data w Hdata). simpl.
    now rewrite app_nil_r.
  - inversion Hpre as [| ? ? (fields & Hd0) Hpre']; subst. simpl in Hd0. subst data0.
    change (for_each E (((c0, JObj fields) :: pre) ++ (c, data) :: rest))
      with (bind (check_channel E (c0, JObj fields))
                 (fun _ => for_each E (pre ++ (c, data) :: rest))).
    unfold bind. destruct (check_channel_fetches E c0 fields w) as (Hr & Hq).
    destruct (check_channel E (c0, JObj fields) w) as [r w1]. simpl in Hr, Hq.
    subst r. destruct (IH w1 Hpre' Hdata) as (Hr1 & Hq1). split; [exact Hr1 |].
    rewrite Hq1, Hq, <- app_assoc. reflexivity.
Qed.

(** X17.  An entry of the registry that is not a dict ends the run with
    [AttributeError] (l.179 is outside every [try]): the sources before it
    were fetched, the entry itself and the sources after it are not. *)
Theorem main_stops_at_malformed_entry (E : env) (w : world) (d : doc)
    (pre rest : list (string * json)) (c : string) (data : json) :
  disk w = Document d ->
  json_load d = JObj (pre ++ (c, data) :: rest) ->
  open_fault E (opens w) = None ->
  Forall (fun p => exists fields, snd p = JObj fields) pre ->
  (forall fields, data <> JObj fields) ->
  fst (main E w) = inl AttributeError /\
  channel_requests (requests (snd (main E w)))
  = (channel_requests (requests w) ++ map fst pre)%list.
Proof.
  intros Hd Hl Ho Hpre Hdata. rewrite (main_loads E w d _ Hd Hl Ho).
  apply (for_each_stops E pre c data rest (count_open w) Hpre Hdata).
Qed.

Lemma main_stops_at_malformed_entry_witness :
  fst (main healthy (start (Document broken_second))) = inl AttributeError /\
  channel_requests (requests (snd (main healthy (start (Document broken_second)))))
  = (channel_requests (requests (start (Document broken_second))) ++
     map fst [("UCabc", JObj [("latestVideoId", JStr "vid1")])])%list.
Proof.
  apply (@main_stops_at_malformed_entry healthy (start (Document broken_second))
           broken_second
           [("UCabc", JObj [("latestVideoId", JStr "vid1")])]
           [("UCghi", JObj [("latestVideoId", JStr "vid5")])]
           "UCdef" (JStr "vid9"));
    try reflexivity.
  - repeat constructor; eexists; reflexivity.
  - intros fields H. discriminate H.
Defined.

(** X18.  When the file cannot be loaded, or what it holds is not a dict,
    the run ends with the exception before anything is printed, asked or
    sent: [main] has no handler around its load. *)
Theorem main_needs_a_registry (E : env) (w : world) :
  (forall items, fst (open_and_load E w) <> inr (JObj items)) ->
  exists e,
    main E w = (inl e, count_open w) /\
    (fst (open_and_load E w) = inl e \/ e = AttributeError).
Proof.
  intro H. unfold main, bind, eval. unfold open_and_load in *.
  destruct (open_fault E (opens w)) as [e |]; simpl in *.
  - exists e. split; [reflexivity | now left].
  - destruct (disk w) as [| | d]; simpl in *.
    + exists FileNotFoundError. split; [reflexivity | now left].
    + exists JSONDecodeError. split; [reflexivity | now left].
    + destruct (json_load d) as [| b | z | s | l | items] eqn:Hl; simpl;
        try (exists AttributeError; split; [reflexivity | now right]).
      now elim (H items).
Qed.

Lemma main_needs_a_registry_witness :
  exists e,
    main healthy (start Missing) = (inl e, count_open (start Missing)) /\
    (fst (open_and_load healthy (start Missing)) = inl e \/ e = AttributeError).
Proof.
  apply (@main_needs_a_registry healthy (start Missing)).
  intros items H. discriminate H.
Defined.

(** X19.  What is written to the file is what the next load returns: the
    dump of [update_json_data] followed by a load, as the next call or the
    next run makes it, gives back the value that was dumped. *)
Theorem dump_then_load_round_trip (E : env) (v : json) (w : world) :
  wf v = true ->
  open_fault E (opens w) = None ->
  write_fault E (opens w) = None ->
  open_fault E (S (opens w)) = None ->
  fst ((open_and_dump E v ;; open_and_load E) w) = inr v.
Proof.
  intros Hv Ho1 Hw Ho2. unfold bind, open_and_dump, open_and_load.
  rewrite Ho1, Hw. simpl. rewrite Ho2. simpl. now rewrite json_load_dump.
Qed.

Lemma dump_then_load_round_trip_witness :
  fst ((open_and_dump healthy (JObj [("UCabc", JObj [("latestVideoId", JStr "vid2")])]) ;;
        open_and_load healthy) (start Missing))
  = inr (JObj [("UCabc", JObj [("latestVideoId", JStr "vid2")])]).
Proof.
  apply (@dump_then_load_round_trip healthy
           (JObj [("UCabc", JObj [("latestVideoId", JStr "vid2")])]) (start Missing));
    reflexivity.
Defined.

(* ===================================================================== *)
(** ** A source that fails, and the sources after it *)
(* ===================================================================== *)

Lemma grows_refl w : grows w w.
Proof. exists []. now rewrite app_nil_r. Qed.

Lemma grows_trans w1 w2 w3 : grows w1 w2 -> grows w2 w3 -> grows w1 w3.
Proof.
  intros [m1 H1] [m2 H2]. exists (m1 ++ m2)%list. now rewrite H2, H1, app_assoc.
Qed.

Lemma grows_same w w' : stdout w' = stdout w -> grows w w'.
Proof. intro H. exists []. now rewrite app_nil_r. Qed.

Lemma grows_print l : keeps grows (print l).
Proof. intro w. now exists [l]. Qed.

Lemma grows_channels_list E c : keeps grows (channels_list_execute E c).
Proof. intro w. now apply grows_same. Qed.

Lemma grows_playlist_items_list E c p :
  keeps grows (playlist_items_list_execute E c p).
Proof. intro w. now apply grows_same. Qed.

Lemma grows_open_and_load E : keeps grows (open_and_load E).
Proof.
  intro w. apply grows_same. unfold open_and_load.
  destruct (open_fault E (opens w)); [| destruct (disk w)]; reflexivity.
Qed.

Lemma grows_open_and_dump E v : keeps grows (open_and_dump E v).
Proof.
  intro w. apply grows_same. unfold open_and_dump.
  destruct (open_fault E (opens w));
    [| destruct (write_fault E (opens w)) as [[e c] |]]; reflexivity.
Qed.

Lemma grows_smtp_call E n c : keeps grows (smtp_call E n c).
Proof.
  intro w. apply grows_same. unfold smtp_call.
  destruct (connected (gmail_server w)); [| reflexivity].
  destruct (smtp_reply E n (gmail_server w) c) as [| e []]; reflexivity.
Qed.

Lemma grows_record_mail m : keeps grows (record_mail m).
Proof. intro w. now apply grows_same. Qed.

Lemma grows_next_post : keeps grows next_post.
Proof. intro w. now apply grows_same. Qed.

Create HintDb grows.

#[local] Hint Resolve grows_print grows_channels_list grows_playlist_items_list
  grows_open_and_load grows_open_and_dump grows_smtp_call grows_record_mail
  grows_next_post : grows.

Ltac grow :=
  repeat first
    [ solve [ auto with grows ]
    | apply keeps_ret; exact grows_refl
    | apply keeps_eval; exact grows_refl
    | apply keeps_if
    | apply keeps_try_except; [exact grows_trans | | intro ]
    | apply keeps_bind; [exact grows_trans | | intro ] ].

Lemma grows_fetch_latest_video E c : keeps grows (fetch_latest_video E c).
Proof. unfold fetch_latest_video. grow. Qed.

Lemma grows_update_json_data E c v : keeps grows (update_json_data E c v).
Proof. unfold update_json_data. grow. Qed.

Lemma grows_post_gmail E title url : keeps grows (post_gmail E title url).
Proof.
  intro w. unfold grows, post_gmail. unfold_py. unfold_io.
  destruct w as [dk [conn tl li] so rq ob ps op]; simpl.
  repeat (split_match; simpl); eexists; reflexivity.
Qed.

#[local] Hint Resolve grows_fetch_latest_video grows_update_json_data
  grows_post_gmail : grows.

Lemma grows_check_channel E item : keeps grows (check_channel E item).
Proof.
  destruct item as [c data]. unfold check_channel.
  apply keeps_bind; [exact grows_trans | grow | intro stored].
  apply keeps_bind; [exact grows_trans | grow | intros _].
  apply keeps_bind; [exact grows_trans | apply grows_fetch_latest_video |].
  intros [[v t] u]. grow.
Qed.

Lemma grows_for_each E items : keeps grows (for_each E items).
Proof.
  induction items as [| item items IH]; simpl.
  - apply keeps_ret; exact grows_refl.
  - apply keeps_bind; [exact grows_trans | apply grows_check_channel |].
    intros _. exact IH.
Qed.

(** The loop calls [post_gmail] once for each source it decides to
    notify. *)
Lemma for_each_posts E items : forall w,
  Forall (fun p => exists fields, snd p = JObj fields) items ->
  posts (snd (for_each E items w)) = posts w + notify_count E items.
Proof.
  induction items as [| [c data] items IH]; intros w Hall.
  - simpl. unfold notify_count. simpl. lia.
  - inversion Hall as [| ? ? (fields & Hdata) Hrest]; subst. simpl in Hdata.
    subst data.
    change (for_each E ((c, JObj fields) :: items))
      with (bind (check_channel E (c, JObj fields)) (fun _ => for_each E items)).
    unfold bind. destruct (check_channel_posts E c fields w) as (Hr & Hp).
    destruct (check_channel E (c, JObj fields) w) as [r w1]. simpl in Hr, Hp.
    subst r. rewrite (IH w1 Hrest), Hp. unfold notify_count. simpl.
    destruct (notifies E c fields); simpl; lia.
Qed.

(** The loop over a list that begins with a source whose body returns. *)
Lemma for_each_cons_returns E item rest w w' :
  check_channel E item w = (inr tt, w') ->
  for_each E (item :: rest) w = for_each E rest w'.
Proof.
  intro H.
  change (for_each E (item :: rest))
    with (bind (check_channel E item) (fun _ => for_each E rest)).
  unfold bind. now rewrite H.
Qed.

(** C4.  When the fetch for a source fails, that is, when it gives no id
    that passes the test of l.187 (the channel is unknown, with or without
    ["items"] in the answer; the playlist is empty; a request raises; a
    response lacks what is looked up in it), the loop body prints the
    failure and returns: the file, the SMTP connection, the mails and the
    counters are as before.  The loop goes on with the sources that
    follow, and when their entries are dicts it completes, has asked the
    API about each of them in order, and has called [post_gmail] once for
    each of them that has a new upload. *)
Theorem fetch_failure_isolated (E : env) (c : string)
    (fields : list (string * json)) (rest : list (string * json)) (w : world) :
  truthy (video_id_of (fetched E c)) = false ->
  exists w' ls,
    check_channel E (c, JObj fields) w = (inr tt, w') /\
    disk w' = disk w /\
    gmail_server w' = gmail_server w /\
    outbox w' = outbox w /\
    posts w' = posts w /\
    opens w' = opens w /\
    stdout w' = (stdout w ++ Fetching c :: ls ++ [FetchFailed c; Separator])%list /\
    for_each E ((c, JObj fields) :: rest) w = for_each E rest w' /\
    (Forall (fun p => exists fields', snd p = JObj fields') rest ->
     fst (for_each E ((c, JObj fields) :: rest) w) = inr tt /\
     channel_requests (requests (snd (for_each E ((c, JObj fields) :: rest) w)))
     = (channel_requests (requests w) ++ c :: map fst rest)%list /\
     posts (snd (for_each E ((c, JObj fields) :: rest) w))
     = posts w + notify_count E rest).
Proof.
  intro Hfail.
  destruct (check_channel_dict E c fields) as (ls & rs & Hrs & Hc).
  assert (check_channel E (c, JObj fields) w
          = (inr tt, log (Fetching c :: ls ++ [FetchFailed c; Separator]) rs w))
    as Hbody.
  { rewrite Hc. unfold video_id_of in Hfail.
    destruct (fetched E c) as [[v t] u]. simpl in Hfail.
    unfold after_fetch. rewrite Hfail. unfold_py. simpl.
    f_equal. unfold log, add_line; simpl. now rewrite <- !app_assoc. }
  exists (log (Fetching c :: ls ++ [FetchFailed c; Separator]) rs w), ls.
  split; [exact Hbody |]. do 6 (split; [reflexivity |]).
  pose proof (for_each_cons_returns E (c, JObj fields) rest w _ Hbody) as Hloop.
  split; [exact Hloop |]. intro Hrest.
  assert (Forall (fun p => exists fields', snd p = JObj fields')
            ((c, JObj fields) :: rest)) as Hall
    by (constructor; [now exists fields | assumption]).
  destruct (for_each_fetches E _ w Hall) as (Hdone & Hreq).
  split; [exact Hdone |]. split; [exact Hreq |].
  rewrite Hloop, (for_each_posts E rest _ Hrest). reflexivity.
Qed.

Lemma fetch_failure_isolated_witness :
  exists w' ls,
    check_channel (unknown_channel_for "UCbad")
      ("UCbad", JObj [("latestVideoId", JStr "vid1")]) (start (Document unknown_first))
    = (inr tt, w') /\
    disk w' = disk (start (Document unknown_first)) /\
    gmail_server w' = gmail_server (start (Document unknown_first)) /\
    outbox w' = outbox (start (Document unknown_first)) /\
    posts w' = posts (start (Document unknown_first)) /\
    opens w' = opens (start (Document unknown_first)) /\
    stdout w' = (stdout (start (Document unknown_first)) ++
                 Fetching "UCbad" :: ls ++ [FetchFailed "UCbad"; Separator])%list /\
    for_each (unknown_channel_for "UCbad")
      (("UCbad", JObj [("latestVideoId", JStr "vid1")])
       :: [("UCdef", JObj [("latestVideoId", JStr "vid9")])])
      (start (Document unknown_first))
    = for_each (unknown_channel_for "UCbad")
        [("UCdef", JObj [("latestVideoId", JStr "vid9")])] w' /\
    (Forall (fun p => exists fields', snd p = JObj fields')
       [("UCdef", JObj [("latestVideoId", JStr "vid9")])] ->
     fst (for_each (unknown_channel_for "UCbad")
            (("UCbad", JObj [("latestVideoId", JStr "vid1")])
             :: [("UCdef", JObj [("latestVideoId", JStr "vid9")])])
            (start (Document unknown_first))) = inr tt /\
     channel_requests
       (requests (snd (for_each (unknown_channel_for "UCbad")
            (("UCbad", JObj [("latestVideoId", JStr "vid1")])
             :: [("UCdef", JObj [("latestVideoId", JStr "vid9")])])
            (start (Document unknown_first)))))
     = (channel_requests (requests (start (Document unknown_first))) ++
        "UCbad" :: map fst [("UCdef", JObj [("latestVideoId", JStr "vid9")])])%list /\
     posts (snd (for_each (unknown_channel_for "UCbad")
            (("UCbad", JObj [("latestVideoId", JStr "vid1")])
             :: [("UCdef", JObj [("latestVideoId", JStr "vid9")])])
            (start (Document unknown_first))))
     = posts (start (Document unknown_first)) +
       notify_count (unknown_channel_for "UCbad")
         [("UCdef", JObj [("latestVideoId", JStr "vid9")])]).
Proof.
  apply (@fetch_failure_isolated (unknown_channel_for "UCbad") "UCbad"
           [("latestVideoId", JStr "vid1")]
           [("UCdef", JObj [("latestVideoId", JStr "vid9")])]
           (start (Document unknown_first))).
  vm_compute. reflexivity.
Defined.

(** The kinds of failure of [fetch_failure] are failed fetches in the
    sense of C4: each gives [(None, None, None)]. *)
Lemma fetch_failure_falsy E c l :
  fetch_failure E c l -> truthy (video_id_of (fetched E c)) = false.
Proof.
  intro Hf. destruct (fetch_failure_none E c l Hf) as (rs & H).
  unfold fetched. now rewrite H.
Qed.

(** The run of the witness above: the unknown channel is reported, the
    source after it is fetched, notified and updated. *)
Lemma unknown_channel_run :
  let w' := snd (for_each (unknown_channel_for "UCbad")
                   [("UCbad", JObj [("latestVideoId", JStr "vid1")]);
                    ("UCdef", JObj [("latestVideoId", JStr "vid9")])]
                   (start (Document unknown_first))) in
  stdout w' = [Fetching "UCbad"; ErrorOccurred (KeyError (JStr "items"));
               FetchFailed "UCbad"; Separator;
               Fetching "UCdef"; NewVideoFound (JStr "New Upload");
               PreviousId (JStr "vid9"); NewId (JStr "new-UCdef"); MailSent;
               Updated "UCdef" (JStr "new-UCdef"); Separator] /\
  requests w' = [ChannelsList "UCbad"; ChannelsList "UCdef";
                 PlaylistItemsList (JStr "UUUCdef")] /\
  posts w' = 1.
Proof. vm_compute. repeat split. Qed.

(** The loop body prints the exception met while it processes a source,
    and returns. *)
Lemma source_error_reported E c fields w l :
  source_error E c fields w l ->
  exists w' before after,
    check_channel E (c, JObj fields) w = (inr tt, w') /\
    stdout w' = (stdout w ++ before ++ l :: after)%list.
Proof.
  assert (forall e, fetch_failure E c (ErrorOccurred e) ->
            exists w' before after,
              check_channel E (c, JObj fields) w = (inr tt, w') /\
              stdout w' = (stdout w ++ before ++ ErrorOccurred e :: after)%list)
    as Hfetch.
  { intros e Hf. destruct (fetch_failure_none E c _ Hf) as (rs & H).
    exists (log [Fetching c; ErrorOccurred e; FetchFailed c; Separator] rs w),
      [Fetching c], [FetchFailed c; Separator].
    split; [| reflexivity].
    unfold check_channel. simpl.
    unfold bind at 1. unfold eval at 1. unfold bind at 1. unfold print at 1.
    unfold bind at 1. rewrite H. unfold none3. simpl. unfold_py. simpl.
    f_equal. unfold log, add_line; simpl. now rewrite <- !app_assoc. }
  intros [e He | uploads e Hres He | e Hn Hsend].
  - apply Hfetch. now apply TransientChannels.
  - apply Hfetch. now apply TransientPlaylist with uploads.
  - destruct (check_channel_dict E c fields) as (ls & rs & _ & Hc).
    unfold notifies, video_id_of in Hn.
    destruct (fetched E c) as [[v t] u] eqn:Hf. simpl in Hn.
    apply andb_true_iff in Hn as [Ht Hne].
    pose (wp := add_line (NewId v) (add_line (PreviousId (stored_id fields))
                  (add_line (NewVideoFound t) (log (Fetching c :: ls) rs w)))).
    destruct (post_gmail_failure E t u wp e Hsend) as (w1 & Hp & Hout & _).
    destruct (update_json_data_frame E c v w1) as (Hu & _).
    destruct (grows_update_json_data E c v w1) as (more & Hmore).
    destruct (update_json_data E c v w1) as [ru w2] eqn:Hupd.
    simpl in Hu, Hmore. subst ru.
    exists (add_line Separator w2),
      (Fetching c :: ls ++
       [NewVideoFound t; PreviousId (stored_id fields); NewId v])%list,
      (more ++ [Separator])%list.
    split.
    + rewrite Hc. unfold after_fetch. rewrite Ht, Hne.
      unfold_py. fold wp. rewrite Hp, Hupd. reflexivity.
    + simpl. rewrite Hmore, Hout. subst wp. simpl.
      repeat (rewrite <- app_assoc; simpl). reflexivity.
Qed.

(** C2 (as amended).  When one of the API requests for a source raises (an
    authorization error, HTTP 401 or 403, included), or the send for it
    raises (a rejected login included), the loop body prints the exception
    and returns, and the run does not end there: over following entries
    that are dicts it completes, the printed line is in its output, and
    the API was asked about every source that follows, in order. *)
Theorem error_reported_and_run_continues (E : env) (c : string)
    (fields : list (string * json)) (w : world) (l : line)
    (rest : list (string * json)) :
  source_error E c fields w l ->
  Forall (fun p => exists fields', snd p = JObj fields') rest ->
  exists w' before after,
    check_channel E (c, JObj fields) w = (inr tt, w') /\
    stdout w' = (stdout w ++ before ++ l :: after)%list /\
    for_each E ((c, JObj fields) :: rest) w = for_each E rest w' /\
    fst (for_each E ((c, JObj fields) :: rest) w) = inr tt /\
    In l (stdout (snd (for_each E ((c, JObj fields) :: rest) w))) /\
    channel_requests (requests (snd (for_each E ((c, JObj fields) :: rest) w)))
    = (channel_requests (requests w) ++ c :: map fst rest)%list.
Proof.
  intros Herr Hrest.
  destruct (source_error_reported E c fields w l Herr)
    as (w' & before & after & Hbody & Hout).
  exists w', before, after.
  pose proof (for_each_cons_returns E (c, JObj fields) rest w w' Hbody) as Hloop.
  assert (Forall (fun p => exists fields', snd p = JObj fields')
            ((c, JObj fields) :: rest)) as Hall
    by (constructor; [now exists fields | assumption]).
  destruct (for_each_fetches E _ w Hall) as (Hdone & Hreq).
  repeat split; try assumption.
  rewrite Hloop. destruct (grows_for_each E rest w') as (more & Hmore).
  rewrite Hmore, Hout. apply in_or_app. left. apply in_or_app. right.
  apply in_or_app. right. now left.
Qed.

Lemma error_reported_and_run_continues_witness :
  exists w' before after,
    check_channel (failing_for "UCabc" 403)
      ("UCabc", JObj [("latestVideoId", JStr "vid1")]) (start (Document two_sources))
    = (inr tt, w') /\
    stdout w' = (stdout (start (Document two_sources)) ++
                 before ++ ErrorOccurred (HttpError 403) :: after)%list /\
    for_each (failing_for "UCabc" 403)
      (("UCabc", JObj [("latestVideoId", JStr "vid1")])
       :: [("UCdef", JObj [("latestVideoId", JStr "vid9")])])
      (start (Document two_sources))
    = for_each (failing_for "UCabc" 403)
        [("UCdef", JObj [("latestVideoId", JStr "vid9")])] w' /\
    fst (for_each (failing_for "UCabc" 403)
           (("UCabc", JObj [("latestVideoId", JStr "vid1")])
            :: [("UCdef", JObj [("latestVideoId", JStr "vid9")])])
           (start (Document two_sources))) = inr tt /\
    In (ErrorOccurred (HttpError 403))
       (stdout (snd (for_each (failing_for "UCabc" 403)
           (("UCabc", JObj [("latestVideoId", JStr "vid1")])
            :: [("UCdef", JObj [("latestVideoId", JStr "vid9")])])
           (start (Document two_sources))))) /\
    channel_requests
      (requests (snd (for_each (failing_for "UCabc" 403)
           (("UCabc", JObj [("latestVideoId", JStr "vid1")])
            :: [("UCdef", JObj [("latestVideoId", JStr "vid9")])])
           (start (Document two_sources)))))
    = (channel_requests (requests (start (Document two_sources))) ++
       "UCabc" :: map fst [("UCdef", JObj [("latestVideoId", JStr "vid9")])])%list.
Proof.
  apply (@error_reported_and_run_continues (failing_for "UCabc" 403) "UCabc"
           [("latestVideoId", JStr "vid1")] (start (Document two_sources))
           (ErrorOccurred (HttpError 403))
           [("UCdef", JObj [("latestVideoId", JStr "vid9")])]).
  - apply ChannelRequestRaises. reflexivity.
  - repeat constructor. eexists. reflexivity.
Defined.
